(** * A user-management page: record store, form and table row

    Shallow embedding of the three React components of the repository:

    - [UserList] (the record store): the in-memory list of user records,
      the pagination state and the handlers [fetchUsers],
      [handleAddOrEditUser], [handleDeleteUser], [handleEditUser],
      [paginate];
    - [UserForm]: the draft of one record, its initial value, [handleChange],
      [handleSubmit] and [handleCancel];
    - [User] (one table row): the derived first and last name, the cells
      and the two buttons.

    JavaScript values are modelled as the code uses them: ids are numbers
    (integer-valued doubles, written as the integer they denote, together
    with the value [-Infinity] that [Math.max] returns on no arguments;
    a sum is rounded to the nearest double, which matters from 2^53 on),
    arrays are lists, strings are [string]s.  React state is a record; a handler
    reads the state of the render that created it (its closure) and writes
    through the [set...] functions, which is what the small state monad
    below spells out.  Network calls and notifications are effects
    recorded in the world; the answer of the remote side is an argument of
    the handler that awaits it. *)

From Stdlib Require Import ZArith QArith Qround Lia Ascii String.
From stdpp Require Import base list strings.

Local Open Scope Z_scope.

(** ** JavaScript primitives used by the components *)

Module JS.

(** Numbers that can occur as ids: integer-valued doubles, written as
    the integer they denote, and [-Infinity]. *)
Inductive number : Type :=
| NegInfinity
| Int (z : Z).

#[global] Instance number_eq_dec : EqDecision number.
Proof. solve_decision. Defined.

(** [a === b] on numbers. *)
Definition strict_eq (a b : number) : bool :=
  match a, b with
  | NegInfinity, NegInfinity => true
  | Int x, Int y => x =? y
  | _, _ => false
  end.

(** [a !== b] on numbers. *)
Definition strict_ne (a b : number) : bool := negb (strict_eq a b).

(** The double nearest to the integer [z], ties to the even mantissa.
    Every integer up to 2^53 in magnitude is a double; from there on the
    doubles between [2^e] and [2^(e+1)] are the multiples of
    [2^(e-52)]. *)
Definition round_double (z : Z) : Z :=
  let a := Z.abs z in
  if a <=? 2 ^ 53 then z
  else
    let ulp := 2 ^ (Z.log2 a - 52) in
    let q := a / ulp in
    let r := a mod ulp in
    let q' := if 2 * r <? ulp then q
              else if ulp <? 2 * r then q + 1
              else if Z.even q then q else q + 1 in
    Z.sgn z * (q' * ulp).

(** [a + b]: the exact sum rounded to a double.  (A sum beyond the
    largest double would be [Infinity]; the page only ever adds 1, which
    never leaves the doubles.) *)
Definition plus (a b : number) : number :=
  match a, b with
  | Int x, Int y => Int (round_double (x + y))
  | _, _ => NegInfinity
  end.

(** The order of numbers, [a <= b]. *)
Definition le (a b : number) : Prop :=
  match a, b with
  | NegInfinity, _ => True
  | Int _, NegInfinity => False
  | Int x, Int y => x <= y
  end.

Definition max2 (a b : number) : number :=
  match a, b with
  | NegInfinity, _ => b
  | _, NegInfinity => a
  | Int x, Int y => Int (Z.max x y)
  end.

(** [Math.max(...xs)]: starts from [-Infinity] and keeps the larger
    value; on no arguments the result is [-Infinity]. *)
Definition Math_max (xs : list number) : number :=
  fold_left max2 xs NegInfinity.

(** [Math.ceil(a / b)] for the integer-valued operands the page
    computes with; the quotient is the exact rational. *)
Definition Math_ceil (q : Q) : Z := Qceiling q.

Definition div (a b : Z) : Q := (inject_Z a / inject_Z b)%Q.

(** [arr.slice(start, end)]: negative indices count from the end of
    the array, both bounds are clamped to the array. *)
Definition slice {A : Type} (arr : list A) (start end_ : Z) : list A :=
  let len := Z.of_nat (length arr) in
  let k := if start <? 0 then Z.max (len + start) 0 else Z.min start len in
  let final := if end_ <? 0 then Z.max (len + end_) 0 else Z.min end_ len in
  take (Z.to_nat (final - k)) (drop (Z.to_nat k) arr).

(** [s.split(sep)] for a one-character separator: the pieces between
    the occurrences of [sep], all of them, empty ones included. *)
Fixpoint split (sep : ascii) (s : string) : list string :=
  match s with
  | EmptyString => [EmptyString]
  | String c rest =>
      if Ascii.eqb c sep then EmptyString :: split sep rest
      else match split sep rest with
           | piece :: pieces => String c piece :: pieces
           | [] => [String c EmptyString]
           end
  end.

(** [s || d] on strings: the empty string is falsy. *)
Definition or_str (s d : string) : string :=
  if String.eqb s "" then d else s.

(** [arr[i] || d] on an array of strings: a missing element is
    [undefined], which is falsy as well. *)
Definition index_or (arr : list string) (i : nat) (d : string) : string :=
  match arr !! i with
  | Some s => or_str s d
  | None => d
  end.

(** [!s] on a string. *)
Definition not_str (s : string) : bool := String.eqb s "".

End JS.

Import JS.

(** ** Data model *)

(** [company: { name }]. *)
Record Company : Type := { company_name : string }.

(** A user record as the remote side returns it. *)
Record UserRecord : Type := {
  id : number;
  name : string;
  email : string;
  company : Company
}.

(** The draft of the form: a record without an id. *)
Record FormData : Type := {
  fd_name : string;
  fd_email : string;
  fd_company : Company
}.

(** [{ ...user, id: i }]. *)
Definition with_id (user : UserRecord) (i : number) : UserRecord :=
  {| id := i; name := name user; email := email user; company := company user |}.

(** The outcome of an awaited request: the promise is fulfilled with
    data or rejected with an error carrying a message. *)
Inductive response (A : Type) : Type :=
| Fulfilled (data : A)
| Rejected (message : string).
Arguments Fulfilled {A} data.
Arguments Rejected {A} message.

(** Calls to the notification collaborator. *)
Inductive toast : Type :=
| toast_success (message : string)
| toast_error (message : string).

(** Calls to the remote collaborator. *)
Inductive request : Type :=
| axios_get_users
| axios_delete_user (i : number)
| axios_post_user (body : FormData)
| axios_put_user (i : number) (body : FormData).

(** State of [UserList]. *)
Record ListState : Type := {
  users : list UserRecord;
  error : option string;
  showForm : bool;
  selectedUser : option UserRecord;
  currentPage : Z
}.

(** State of [UserForm]. *)
Record FormState : Type := {
  formData : FormData;
  form_error : option string
}.

(** Everything a handler can read or affect. *)
Record World : Type := {
  store : ListState;
  form : FormState;
  notifications : list toast;
  requests : list request
}.

Definition usersPerPage : Z := 13.

Definition empty_form : FormData :=
  {| fd_name := ""; fd_email := ""; fd_company := {| company_name := "" |} |}.

(** The state of the first render. *)
Definition initial_list : ListState :=
  {| users := []; error := None; showForm := false; selectedUser := None;
     currentPage := 1 |}.

Definition initial_world : World :=
  {| store := initial_list;
     form := {| formData := empty_form; form_error := None |};
     notifications := []; requests := [] |}.

(** ** Effects *)

Module Eff.

(** A handler is a function of the world that returns a value and the
    world after it. *)
Definition M (A : Type) : Type := World -> A * World.

#[global] Instance M_ret : MRet M := fun A a w => (a, w).

#[global] Instance M_bind : MBind M :=
  fun A B k m w => let '(a, w1) := m w in k a w1.

Definition exec {A : Type} (m : M A) (w : World) : World := snd (m w).

Definition modify_store (f : ListState -> ListState) : M unit :=
  fun w => (tt, {| store := f (store w); form := form w;
                   notifications := notifications w; requests := requests w |}).

Definition modify_form (f : FormState -> FormState) : M unit :=
  fun w => (tt, {| store := store w; form := f (form w);
                   notifications := notifications w; requests := requests w |}).

Definition notify (t : toast) : M unit :=
  fun w => (tt, {| store := store w; form := form w;
                   notifications := notifications w ++ [t]; requests := requests w |}).

Definition send (r : request) : M unit :=
  fun w => (tt, {| store := store w; form := form w;
                   notifications := notifications w; requests := requests w ++ [r] |}).

End Eff.

Import Eff.

(** The state setters of [UserList] and [UserForm]. *)
Definition setUsers (us : list UserRecord) : M unit :=
  modify_store (fun s => {| users := us; error := error s; showForm := showForm s;
                            selectedUser := selectedUser s; currentPage := currentPage s |}).

Definition setError (msg : string) : M unit :=
  modify_store (fun s => {| users := users s; error := Some msg; showForm := showForm s;
                            selectedUser := selectedUser s; currentPage := currentPage s |}).

Definition setShowForm (b : bool) : M unit :=
  modify_store (fun s => {| users := users s; error := error s; showForm := b;
                            selectedUser := selectedUser s; currentPage := currentPage s |}).

Definition setSelectedUser (o : option UserRecord) : M unit :=
  modify_store (fun s => {| users := users s; error := error s; showForm := showForm s;
                            selectedUser := o; currentPage := currentPage s |}).

Definition setCurrentPage (p : Z) : M unit :=
  modify_store (fun s => {| users := users s; error := error s; showForm := showForm s;
                            selectedUser := selectedUser s; currentPage := p |}).

Definition setFormData (d : FormData) : M unit :=
  modify_form (fun f => {| formData := d; form_error := form_error f |}).

Definition setFormError (msg : string) : M unit :=
  modify_form (fun f => {| formData := formData f; form_error := Some msg |}).

(** ** The record store: [UserList] *)

Module UserList.

(** [fetchUsers]: reads the whole collection; the answer replaces the
    list, a failure is recorded and notified. *)
Definition fetchUsers (resp : response (list UserRecord)) : M unit :=
  send axios_get_users;;
  match resp with
  | Fulfilled data => setUsers data
  | Rejected message =>
      setError message;;
      notify (toast_error "Failed to fetch users.")
  end.

(** [handleAddOrEditUser], in the render whose state is [r]. *)
Definition handleAddOrEditUser (r : ListState) (user : UserRecord) : M unit :=
  match selectedUser r with
  | Some _ =>
      setUsers ((fun u => if strict_eq (id u) (id user) then user else u) <$> users r);;
      notify (toast_success "User updated successfully!")
  | None =>
      let newUser := with_id user (plus (Math_max (id <$> users r)) (Int 1)) in
      setUsers (users r ++ [newUser]);;
      notify (toast_success "User added successfully!")
  end;;
  setShowForm false.

(** [handleDeleteUser], in the render whose state is [r]; [resp] is the
    outcome of the awaited remove request. *)
Definition handleDeleteUser (r : ListState) (i : number) (resp : response unit) : M unit :=
  send (axios_delete_user i);;
  match resp with
  | Fulfilled _ =>
      setUsers (List.filter (fun user => strict_ne (id user) i) (users r));;
      notify (toast_success "User deleted successfully!")
  | Rejected message =>
      setError message;;
      notify (toast_error "Failed to delete user.")
  end.

Definition handleEditUser (userData : UserRecord) : M unit :=
  setSelectedUser (Some userData);;
  setShowForm true.

(** The click handler of the "Add User" button. *)
Definition click_AddUser : M unit :=
  setSelectedUser None;;
  setShowForm true.

Definition paginate (pageNumber : Z) : M unit := setCurrentPage pageNumber.

Definition indexOfLastUser (r : ListState) : Z := currentPage r * usersPerPage.

Definition indexOfFirstUser (r : ListState) : Z := indexOfLastUser r - usersPerPage.

Definition currentUsers (r : ListState) : list UserRecord :=
  slice (users r) (indexOfFirstUser r) (indexOfLastUser r).

(** The [disabled] attribute of the Prev and of the Next button. *)
Definition prev_disabled (r : ListState) : bool := currentPage r =? 1.

Definition next_disabled (r : ListState) : bool :=
  currentPage r =? Math_ceil (div (Z.of_nat (length (users r))) usersPerPage).

(** A click on a button: a disabled button does not run its handler. *)
Definition click_Prev (r : ListState) : M unit :=
  if prev_disabled r then mret tt else paginate (currentPage r - 1).

Definition click_Next (r : ListState) : M unit :=
  if next_disabled r then mret tt else paginate (currentPage r + 1).

End UserList.

(** ** The form: [UserForm] *)

Module UserForm.

(** The initial draft ([useState]): the fields of the selected record,
    or empty strings. *)
Definition initialFormData (selectedUser : option UserRecord) : FormData :=
  {| fd_name := match selectedUser with Some u => name u | None => "" end;
     fd_email := match selectedUser with Some u => email u | None => "" end;
     fd_company :=
       {| company_name :=
            match selectedUser with
            | Some u => company_name (company u)
            | None => ""
            end |} |}.

(** The effect that depends on [selectedUser]: a selected record is
    copied into the draft. *)
Definition syncSelectedUser (selectedUser : option UserRecord) : M unit :=
  match selectedUser with
  | Some u =>
      setFormData {| fd_name := name u; fd_email := email u;
                     fd_company := {| company_name := company_name (company u) |} |}
  | None => mret tt
  end.

(** The inputs whose [onChange] is [handleChange]; the [name] attribute
    of the input is the key that is set in the draft. *)
Inductive input : Type :=
| input_name
| input_email.

(** [handleChange], in the render where the form has state [f]:
    [{ ...formData, [e.target.name]: e.target.value }]. *)
Definition handleChange (f : FormState) (target : input) (value : string) : M unit :=
  setFormData
    match target with
    | input_name =>
        {| fd_name := value; fd_email := fd_email (formData f);
           fd_company := fd_company (formData f) |}
    | input_email =>
        {| fd_name := fd_name (formData f); fd_email := value;
           fd_company := fd_company (formData f) |}
    end.

(** The [onChange] of the department input:
    [{ ...formData, company: { name: e.target.value } }]. *)
Definition handleDepartmentChange (f : FormState) (value : string) : M unit :=
  setFormData {| fd_name := fd_name (formData f); fd_email := fd_email (formData f);
                 fd_company := {| company_name := value |} |}.

(** [handleCancel].  The source resets the draft to
    [{ name: "", email: "", company: "" }]: the company is the empty
    string there, whose [.name] is [undefined]; the validation and the
    department input read it as an absent name, which the record below
    renders as the empty name. *)
Definition handleCancel : M unit :=
  setShowForm false;;
  setFormData {| fd_name := ""; fd_email := "";
                 fd_company := {| company_name := "" |} |};;
  setSelectedUser None.

(** [handleSubmit], in the render where the list has state [r] (the
    props [selectedUser] and [handleAddOrEditUser] come from it) and
    the form has state [f]; [resp] is the outcome of the create or
    update request, if one is issued. *)
Definition handleSubmit (r : ListState) (f : FormState) (resp : response UserRecord) : M unit :=
  let formData := formData f in
  if not_str (fd_name formData) || not_str (fd_email formData)
     || not_str (company_name (fd_company formData))
  then setFormError "All fields are required."
  else
    send (match selectedUser r with
          | Some sel => axios_put_user (id sel) formData
          | None => axios_post_user formData
          end);;
    match resp with
    | Fulfilled data =>
        UserList.handleAddOrEditUser r data;;
        setFormData empty_form;;
        setSelectedUser None;;
        setShowForm false
    | Rejected message => setFormError message
    end.

End UserForm.

(** ** One table row: [User] *)

Module User.

Definition nameParts (userData : UserRecord) : list string :=
  split " " (or_str (name userData) "").

Definition firstName (userData : UserRecord) : string :=
  index_or (nameParts userData) 0 "".

Definition lastName (userData : UserRecord) : string :=
  index_or (nameParts userData) 1 "".


Definition email (userData : UserRecord) : string :=
  or_str (email userData) "".

(** [handleEdit] and [handleDelete] forward to the callbacks of the
    props. *)
Definition handleEdit (handleEditUser : UserRecord -> M unit)
    (userData : UserRecord) : M unit :=
  handleEditUser userData.

Definition handleDelete (handleDeleteUser : number -> M unit)
    (userData : UserRecord) : M unit :=
  handleDeleteUser (id userData).



End User.

(** ** Operations of the page

    An operation is a handler run in the render of the current state,
    with no other update in between. *)

Definition Load (resp : response (list UserRecord)) (w : World) : World :=
  exec (UserList.fetchUsers resp) w.

Definition AddOrEdit (user : UserRecord) (w : World) : World :=
  exec (UserList.handleAddOrEditUser (store w) user) w.

Definition Delete (i : number) (resp : response unit) (w : World) : World :=
  exec (UserList.handleDeleteUser (store w) i resp) w.

Definition Submit (resp : response UserRecord) (w : World) : World :=
  exec (UserForm.handleSubmit (store w) (form w) resp) w.

Definition Prev (w : World) : World := exec (UserList.click_Prev (store w)) w.

Definition Next (w : World) : World := exec (UserList.click_Next (store w)) w.



(** The form is rendered while [showForm] holds.  When it appears, its
    state starts from [useState] and the effect on [selectedUser] runs. *)
Definition mount_form (w : World) : World :=
  exec (modify_form (fun _ => {| formData := UserForm.initialFormData (selectedUser (store w));
                                 form_error := None |});;
        UserForm.syncSelectedUser (selectedUser (store w))) w.

(** A click on "Add User": with the form closed the form appears; with
    the form open it stays as it is (the effect finds no selection). *)
Definition BeginAdd (w : World) : World :=
  let w1 := exec UserList.click_AddUser w in
  if showForm (store w) then w1 else mount_form w1.

(** A click on Edit in the row of [u], with the form closed. *)
Definition BeginEdit (u : UserRecord) (w : World) : World :=
  mount_form (exec (User.handleEdit UserList.handleEditUser u) w).

(** A click on Edit in the row of [u] while the form is open: the form
    stays, and the effect copies [u] into the draft when the selection
    is a new object ([sync]). *)
Definition EditWhileOpen (u : UserRecord) (sync : bool) (w : World) : World :=
  exec (User.handleEdit UserList.handleEditUser u;;
        if sync then UserForm.syncSelectedUser (Some u) else mret tt) w.

(** A click on Delete in the row of [u]. *)
Definition ClickDelete (u : UserRecord) (resp : response unit) (w : World) : World :=
  exec (User.handleDelete (fun i => UserList.handleDeleteUser (store w) i resp) u) w.

Definition Change (target : UserForm.input) (value : string) (w : World) : World :=
  exec (UserForm.handleChange (form w) target value) w.

Definition ChangeDepartment (value : string) (w : World) : World :=
  exec (UserForm.handleDepartmentChange (form w) value) w.

Definition Cancel (w : World) : World := exec UserForm.handleCancel w.

(** The states that the page can get to from [w0]: the user and the
    remote side act on it one operation at a time.  The rows that can be
    clicked are those of the visible page; the form can be used while it
    is shown. *)
Inductive reachable_from (w0 : World) : World -> Prop :=
| reach_start : reachable_from w0 w0
| reach_Load w resp : reachable_from w0 w -> reachable_from w0 (Load resp w)
| reach_BeginAdd w : reachable_from w0 w -> reachable_from w0 (BeginAdd w)
| reach_BeginEdit w u :
    reachable_from w0 w -> showForm (store w) = false ->
    u ∈ UserList.currentUsers (store w) -> reachable_from w0 (BeginEdit u w)
| reach_EditWhileOpen w u sync :
    reachable_from w0 w -> showForm (store w) = true ->
    u ∈ UserList.currentUsers (store w) -> reachable_from w0 (EditWhileOpen u sync w)
| reach_ClickDelete w u resp :
    reachable_from w0 w -> u ∈ UserList.currentUsers (store w) ->
    reachable_from w0 (ClickDelete u resp w)
| reach_Prev w : reachable_from w0 w -> reachable_from w0 (Prev w)
| reach_Next w : reachable_from w0 w -> reachable_from w0 (Next w)
| reach_Change w target value :
    reachable_from w0 w -> showForm (store w) = true ->
    reachable_from w0 (Change target value w)
| reach_ChangeDepartment w value :
    reachable_from w0 w -> showForm (store w) = true ->
    reachable_from w0 (ChangeDepartment value w)
| reach_Submit w resp :
    reachable_from w0 w -> showForm (store w) = true ->
    reachable_from w0 (Submit resp w)
| reach_Cancel w :
    reachable_from w0 w -> showForm (store w) = true ->
    reachable_from w0 (Cancel w).

(** The states of the page, which starts in [initial_world]. *)
Definition reachable (w : World) : Prop := reachable_from initial_world w.

(** The character [c] occurs in [s]. *)
Fixpoint occurs (c : ascii) (s : string) : bool :=
  match s with
  | EmptyString => false
  | String c' rest => Ascii.eqb c' c || occurs c rest
  end.

(** What the user types into the open form, one input at a time. *)
Inductive keystroke : Type :=
| type_in (target : UserForm.input) (value : string)
| type_department (value : string).

Definition Type_ (k : keystroke) (w : World) : World :=
  match k with
  | type_in target value => Change target value w
  | type_department value => ChangeDepartment value w
  end.

Definition Typing (ks : list keystroke) (w : World) : World :=
  fold_left (fun w k => Type_ k w) ks w.

(** The draft that holds the fields of a record. *)
Definition draft_of (u : UserRecord) : FormData :=
  {| fd_name := name u; fd_email := email u;
     fd_company := {| company_name := company_name (company u) |} |}.

(** Records added one after the other. *)
Definition AddAll (news : list UserRecord) (w : World) : World :=
  fold_left (fun w user => AddOrEdit user w) news w.

(** The visible slice when the collection is [us] and the page pointer
    is [p]. *)
Definition page (p : Z) (us : list UserRecord) : list UserRecord :=
  UserList.currentUsers {| users := us; error := None; showForm := false;
                           selectedUser := None; currentPage := p |}.

(** Sample data. *)
Definition mk_user (i : Z) (n e d : string) : UserRecord :=
  {| id := Int i; name := n; email := e; company := {| company_name := d |} |}.

Definition with_users (us : list UserRecord) (w : World) : World :=
  exec (setUsers us) w.

Definition jane : UserRecord := mk_user 11 "Jane Doe" "j@x.com" "Eng".

Definition fourteen : list UserRecord :=
  (fun i => mk_user i "Ann Lee" "a@x.com" "Ops") <$> seqZ 1 14.

(** ** Vocabulary of the specification *)

(** The records of [us] other than those with id [i], in order. *)
Definition others (i : number) (us : list UserRecord) : list UserRecord :=
  filter (fun u => id u <> i) us.

(** The text of [s] before its first [sep] (all of [s] if there is none). *)
Fixpoint before_first (sep : ascii) (s : string) : string :=
  match s with
  | EmptyString => EmptyString
  | String c rest =>
      if Ascii.eqb c sep then EmptyString else String c (before_first sep rest)
  end.

(** The text of [s] after its first [sep] (empty if there is none). *)
Fixpoint after_first (sep : ascii) (s : string) : string :=
  match s with
  | EmptyString => EmptyString
  | String c rest => if Ascii.eqb c sep then rest else after_first sep rest
  end.

(** The number of records of the collection, as an integer. *)
Definition total (r : ListState) : Z := Z.of_nat (length (users r)).

(** [p] is the least integer with [total <= 13 * p]: the ceiling of
    [total / 13]. *)
Definition is_ceiling_of_pages (r : ListState) (p : Z) : Prop :=
  usersPerPage * (p - 1) < total r <= usersPerPage * p.

(** The page at which the list shows page [p]. *)
Definition at_page (p : Z) (w : World) : World := exec (setCurrentPage p) w.

Create HintDb js.

(** ** Facts about the primitives *)

Section Numbers.

Lemma strict_eq_true (a b : number) : strict_eq a b = true <-> a = b.
Proof.
  destruct a as [|x], b as [|y]; simpl; split; intros H;
    try reflexivity; try discriminate.
  - apply Z.eqb_eq in H. now subst.
  - injection H as ->. apply Z.eqb_refl.
Qed.

Lemma strict_eq_false (a b : number) : strict_eq a b = false <-> a <> b.
Proof.
  rewrite <- strict_eq_true. destruct (strict_eq a b); split; congruence.
Qed.

Lemma strict_ne_true (a b : number) : strict_ne a b = true <-> a <> b.
Proof.
  unfold strict_ne. rewrite negb_true_iff. apply strict_eq_false.
Qed.

Lemma number_le_refl (a : number) : le a a.
Proof. destruct a; simpl; [exact I | lia]. Qed.

Lemma number_le_trans (a b c : number) : le a b -> le b c -> le a c.
Proof. destruct a, b, c; simpl; try tauto; lia. Qed.

Lemma max2_le_l (a b : number) : le a (max2 a b).
Proof. destruct a, b; simpl; try exact I; lia. Qed.

Lemma max2_le_r (a b : number) : le b (max2 a b).
Proof. destruct a, b; simpl; try exact I; lia. Qed.

Lemma max2_cases (a b : number) : max2 a b = a \/ max2 a b = b.
Proof.
  destruct a as [|x], b as [|y]; simpl; auto.
  destruct (Z.max_spec x y) as [[_ ->]|[_ ->]]; auto.
Qed.

#[local] Hint Resolve number_le_refl max2_le_l max2_le_r : js.

(** The running maximum of [fold_left]: an upper bound of the start
    value and of every argument, and one of them. *)
Lemma fold_max2_spec (xs : list number) (acc : number) :
  le acc (fold_left max2 xs acc)
  /\ (forall x, x ∈ xs -> le x (fold_left max2 xs acc))
  /\ (fold_left max2 xs acc = acc \/ fold_left max2 xs acc ∈ xs).
Proof.
  revert acc. induction xs as [|x xs IH]; intros acc; simpl.
  - split; [auto with js|]. split; [|now left].
    intros x Hx. inversion Hx.
  - destruct (IH (max2 acc x)) as (Hacc & Hall & Hin).
    split; [eauto using number_le_trans with js|].
    split.
    + intros y Hy. apply elem_of_cons in Hy as [->|Hy];
        [eauto using number_le_trans with js | now apply Hall].
    + destruct Hin as [Heq|Hin].
      * destruct (max2_cases acc x) as [E|E]; rewrite Heq, E.
        -- now left.
        -- right. apply elem_of_cons. now left.
      * right. apply elem_of_cons. now right.
Qed.

(** Up to 2^53 in magnitude the rounding changes nothing. *)
Lemma round_double_exact (z : Z) :
  - 2 ^ 53 <= z <= 2 ^ 53 -> round_double z = z.
Proof.
  intros Hz. unfold round_double.
  destruct (Z.leb_spec (Z.abs z) (2 ^ 53)) as [_|Habs]; [reflexivity|].
  change (2 ^ 53) with 9007199254740992 in *. lia.
Qed.

Lemma plus_one_exact (z : Z) :
  - 2 ^ 53 <= z < 2 ^ 53 -> plus (Int z) (Int 1) = Int (z + 1).
Proof.
  intros Hz. simpl. f_equal. apply round_double_exact.
  change (2 ^ 53) with 9007199254740992 in *. lia.
Qed.

Lemma Math_max_upper (xs : list number) (x : number) :
  x ∈ xs -> le x (Math_max xs).
Proof. apply (fold_max2_spec xs NegInfinity). Qed.

Lemma Math_max_elem (xs : list number) : xs <> [] -> Math_max xs ∈ xs.
Proof.
  intros Hne. destruct (fold_max2_spec xs NegInfinity) as (_ & Hall & [Heq|Hin]).
  - destruct xs as [|x xs]; [congruence|].
    unfold Math_max. rewrite Heq.
    assert (Hx : le x NegInfinity).
    { rewrite <- Heq. apply Hall, elem_of_cons. now left. }
    destruct x; simpl in Hx; [|contradiction].
    apply elem_of_cons. now left.
  - exact Hin.
Qed.

End Numbers.

(** ** The record store: Add, Edit, Delete, Load *)

Section Store.

Implicit Types (w : World) (user u : UserRecord) (i : number).

Lemma AddOrEdit_add_users w user :
  selectedUser (store w) = None ->
  users (store (AddOrEdit user w))
  = users (store w)
      ++ [with_id user (plus (Math_max (id <$> users (store w))) (Int 1))].
Proof.
  intros Hsel. unfold AddOrEdit, UserList.handleAddOrEditUser.
  rewrite Hsel. reflexivity.
Qed.

Lemma AddOrEdit_edit_users w user sel :
  selectedUser (store w) = Some sel ->
  users (store (AddOrEdit user w))
  = (fun u => if strict_eq (id u) (id user) then user else u) <$> users (store w).
Proof.
  intros Hsel. unfold AddOrEdit, UserList.handleAddOrEditUser.
  rewrite Hsel. reflexivity.
Qed.

Lemma Delete_fulfilled_users w i ack :
  users (store (Delete i (Fulfilled ack) w))
  = List.filter (fun user => strict_ne (id user) i) (users (store w)).
Proof. reflexivity. Qed.

(** The callback of [filter] in [handleDeleteUser] keeps the records
    with another id. *)
Lemma filter_strict_ne_others i (us : list UserRecord) :
  List.filter (fun user => strict_ne (id user) i) us = others i us.
Proof.
  unfold others. induction us as [|u us IH]; [reflexivity|].
  simpl. rewrite filter_cons.
  destruct (decide (id u <> i)) as [D|D].
  - apply strict_ne_true in D. rewrite D. now f_equal.
  - destruct (strict_ne (id u) i) eqn:N; [|exact IH].
    apply strict_ne_true in N. contradiction.
Qed.

(** The callback of [map] in [handleAddOrEditUser] keeps the id at
    every position. *)
Lemma edit_keeps_ids user (us : list UserRecord) :
  id <$> ((fun u => if strict_eq (id u) (id user) then user else u) <$> us)
  = id <$> us.
Proof.
  rewrite <- list_fmap_compose. apply list_fmap_ext.
  intros k u _. simpl.
  destruct (strict_eq (id u) (id user)) eqn:E; [|reflexivity].
  apply strict_eq_true in E. congruence.
Qed.

Lemma Load_fulfilled_users w data :
  users (store (Load (Fulfilled data) w)) = data.
Proof. reflexivity. Qed.

End Store.

(** C1, as the code has it.  On a non-empty collection, Add (no record
    selected) appends one record at the end and the length grows by
    exactly one; the id of the record is the sum [m + 1] that JavaScript
    computes, where [m] is the largest id of the collection before (an id
    of the collection that no id exceeds).  When the largest id is an
    integer [z] with [-2^53 <= z < 2^53], where that sum is exact, the
    new id is the integer [z + 1]. *)
Theorem add_assigns_max_plus_one (w : World) (user : UserRecord) :
  users (store w) <> [] ->
  selectedUser (store w) = None ->
  exists m : number,
    m ∈ id <$> users (store w)
    /\ (forall i, i ∈ id <$> users (store w) -> le i m)
    /\ users (store (AddOrEdit user w))
       = users (store w) ++ [with_id user (plus m (Int 1))]
    /\ last (users (store (AddOrEdit user w))) = Some (with_id user (plus m (Int 1)))
    /\ (forall z, m = Int z -> - 2 ^ 53 <= z < 2 ^ 53 ->
         id (with_id user (plus m (Int 1))) = Int (z + 1))
    /\ length (users (store (AddOrEdit user w))) = S (length (users (store w))).
Proof.
  intros Hne Hsel.
  exists (Math_max (id <$> users (store w))).
  rewrite (AddOrEdit_add_users w user Hsel).
  split.
  { apply Math_max_elem. destruct (users (store w)); [congruence | discriminate]. }
  split; [intros i Hi; now apply Math_max_upper|].
  split; [reflexivity|].
  split; [apply last_snoc|].
  split; [intros z -> Hz; now apply plus_one_exact|].
  rewrite length_app. simpl. lia.
Qed.

(** The scenario of the specification: the collection holds one record
    with id 1, Jane Doe is added and gets id 2. *)
Lemma add_assigns_max_plus_one_witness :
  exists m : number,
    m ∈ id <$> [mk_user 1 "Ann Lee" "a@x.com" "Ops"]
    /\ (forall i, i ∈ id <$> [mk_user 1 "Ann Lee" "a@x.com" "Ops"] -> le i m)
    /\ users (store (AddOrEdit jane
                       (with_users [mk_user 1 "Ann Lee" "a@x.com" "Ops"] initial_world)))
       = [mk_user 1 "Ann Lee" "a@x.com" "Ops"] ++ [with_id jane (plus m (Int 1))]
    /\ last (users (store (AddOrEdit jane
                       (with_users [mk_user 1 "Ann Lee" "a@x.com" "Ops"] initial_world))))
       = Some (with_id jane (plus m (Int 1)))
    /\ (forall z, m = Int z -> - 2 ^ 53 <= z < 2 ^ 53 ->
         id (with_id jane (plus m (Int 1))) = Int (z + 1))
    /\ length (users (store (AddOrEdit jane
                       (with_users [mk_user 1 "Ann Lee" "a@x.com" "Ops"] initial_world))))
       = S (length [mk_user 1 "Ann Lee" "a@x.com" "Ops"]).
Proof.
  apply (add_assigns_max_plus_one
           (with_users [mk_user 1 "Ann Lee" "a@x.com" "Ops"] initial_world) jane).
  - discriminate.
  - reflexivity.
Defined.

(** C1, as stated, fails on a collection whose largest id is 2^53: the
    sum [9007199254740992 + 1] is again 9007199254740992 in JavaScript,
    so the record that is added gets the id that is in the collection
    already, not the next integer. *)
Lemma add_at_two_pow_53_repeats_id :
  let w := with_users [mk_user 9007199254740992 "Ann Lee" "a@x.com" "Ops"]
             initial_world in
  users (store w) <> []
  /\ selectedUser (store w) = None
  /\ Math_max (id <$> users (store w)) = Int 9007199254740992
  /\ last (users (store (AddOrEdit jane w)))
     = Some (with_id jane (Int 9007199254740992))
  /\ ~ (forall (w : World) (user : UserRecord) (z : Z),
         users (store w) <> [] ->
         selectedUser (store w) = None ->
         Math_max (id <$> users (store w)) = Int z ->
         last (users (store (AddOrEdit user w))) = Some (with_id user (Int (z + 1)))).
Proof.
  intros w.
  assert (Hlast : last (users (store (AddOrEdit jane w)))
                  = Some (with_id jane (Int 9007199254740992)))
    by (vm_compute; reflexivity).
  split; [discriminate|]. split; [reflexivity|]. split; [reflexivity|].
  split; [exact Hlast|].
  intros H.
  specialize (H w jane 9007199254740992 ltac:(discriminate) eq_refl eq_refl).
  rewrite Hlast in H. discriminate H.
Qed.

Example add_scenario :
  users (store (AddOrEdit jane
                  (with_users [mk_user 1 "Ann Lee" "a@x.com" "Ops"] initial_world)))
  = [mk_user 1 "Ann Lee" "a@x.com" "Ops"; mk_user 2 "Jane Doe" "j@x.com" "Eng"].
Proof. reflexivity. Qed.

(** C2. With a record selected, Edit keeps the length of the collection;
    at every position the entry whose id is the id of the submitted
    record is replaced by that record, and every other entry stays as it
    was, at its position.  The sequence of ids is unchanged. *)
Theorem edit_replaces_matching_entry (w : World) (sel user : UserRecord) :
  selectedUser (store w) = Some sel ->
  length (users (store (AddOrEdit user w))) = length (users (store w))
  /\ (forall (k : nat) (u : UserRecord),
        users (store w) !! k = Some u ->
        users (store (AddOrEdit user w)) !! k
        = Some (if decide (id u = id user) then user else u))
  /\ id <$> users (store (AddOrEdit user w)) = id <$> users (store w)
  /\ (forall (k : nat) (u : UserRecord),
        NoDup (id <$> users (store w)) ->
        users (store w) !! k = Some u ->
        id u = id user ->
        users (store (AddOrEdit user w)) = <[k := user]> (users (store w))).
Proof.
  intros Hsel. rewrite (AddOrEdit_edit_users w user sel Hsel).
  assert (Hpos : forall (k : nat) (u : UserRecord),
             users (store w) !! k = Some u ->
             ((fun u => if strict_eq (id u) (id user) then user else u)
                <$> users (store w)) !! k
             = Some (if decide (id u = id user) then user else u)).
  { intros k u Hk. rewrite list_lookup_fmap, Hk. simpl. f_equal.
    destruct (decide (id u = id user)) as [E|E].
    - apply strict_eq_true in E. now rewrite E.
    - apply strict_eq_false in E. now rewrite E. }
  split; [apply length_fmap|]. split; [exact Hpos|].
  split; [apply edit_keeps_ids|].
  intros k u Hnd Hk Hid. apply list_eq. intros j.
  destruct (decide (j = k)) as [->|Hjk].
  - rewrite (Hpos k u Hk), decide_True by exact Hid.
    symmetry. apply list_lookup_insert_eq. now apply lookup_lt_Some in Hk.
  - rewrite list_lookup_insert_ne by congruence.
    destruct (users (store w) !! j) as [u'|] eqn:Hj.
    + rewrite (Hpos j u' Hj), decide_False; [reflexivity|].
      intros Hid'. apply Hjk.
      apply (NoDup_lookup (id <$> users (store w)) j k (id user)); [exact Hnd| |].
      * now rewrite list_lookup_fmap, Hj, <- Hid'.
      * now rewrite list_lookup_fmap, Hk, <- Hid.
    + now rewrite list_lookup_fmap, Hj.
Qed.

Lemma edit_replaces_matching_entry_witness :
  let w := exec (setSelectedUser (Some (mk_user 2 "Bo Chen" "b@x.com" "Ops")))
             (with_users [mk_user 1 "Ann Lee" "a@x.com" "Ops";
                          mk_user 2 "Bo Chen" "b@x.com" "Ops";
                          mk_user 3 "Cy Diaz" "c@x.com" "Ops"] initial_world) in
  let user := mk_user 2 "Bo Chan" "bo@x.com" "Eng" in
  users (store (AddOrEdit user w)) !! 1%nat = Some user
  /\ users (store (AddOrEdit user w)) !! 2%nat = Some (mk_user 3 "Cy Diaz" "c@x.com" "Ops")
  /\ length (users (store (AddOrEdit user w))) = 3%nat.
Proof.
  intros w user.
  destruct (edit_replaces_matching_entry w (mk_user 2 "Bo Chen" "b@x.com" "Ops") user
              eq_refl) as (Hlen & Hpos & _ & _).
  split; [exact (Hpos 1%nat _ eq_refl)|].
  split; [exact (Hpos 2%nat _ eq_refl)|].
  exact Hlen.
Defined.

(** C3. After a successful Delete of id [i], no record of the collection
    has id [i]; the records with another id are the same as before, in
    the same order, and nothing else is in the collection. *)
Theorem delete_removes_matching_only (w : World) (i : number) (ack : unit) :
  (forall u, u ∈ users (store (Delete i (Fulfilled ack) w)) -> id u <> i)
  /\ others i (users (store (Delete i (Fulfilled ack) w))) = others i (users (store w))
  /\ users (store (Delete i (Fulfilled ack) w)) = others i (users (store w))
  /\ sublist (users (store (Delete i (Fulfilled ack) w))) (users (store w)).
Proof.
  rewrite Delete_fulfilled_users, filter_strict_ne_others. unfold others.
  split; [intros u Hu; now apply list_elem_of_filter in Hu as [Hu _]|].
  split; [apply list_filter_filter_l; tauto|].
  split; [reflexivity|].
  apply sublist_filter.
Qed.

Lemma delete_removes_matching_only_witness :
  let w := with_users [mk_user 1 "Ann Lee" "a@x.com" "Ops";
                       mk_user 2 "Bo Chen" "b@x.com" "Ops";
                       mk_user 3 "Cy Diaz" "c@x.com" "Ops"] initial_world in
  mk_user 3 "Cy Diaz" "c@x.com" "Ops" ∈ users (store (Delete (Int 2) (Fulfilled tt) w))
  /\ id (mk_user 3 "Cy Diaz" "c@x.com" "Ops") <> Int 2.
Proof.
  intros w.
  destruct (delete_removes_matching_only w (Int 2) tt) as (Habsent & _ & Heq & _).
  assert (Hin : mk_user 3 "Cy Diaz" "c@x.com" "Ops"
                ∈ users (store (Delete (Int 2) (Fulfilled tt) w))).
  { rewrite Heq. vm_compute. apply list_elem_of_In. right. left. reflexivity. }
  split; [exact Hin | exact (Habsent _ Hin)].
Defined.

(** C4. When the request of Load or of Delete is rejected, an error
    notification is emitted, the message of the error is stored, and the
    collection is what it was. *)
Theorem network_failure_keeps_collection (w : World) (message : string) :
  (users (store (Load (Rejected message) w)) = users (store w)
   /\ error (store (Load (Rejected message) w)) = Some message
   /\ notifications (Load (Rejected message) w)
      = notifications w ++ [toast_error "Failed to fetch users."])
  /\ (forall i : number,
        users (store (Delete i (Rejected message) w)) = users (store w)
        /\ error (store (Delete i (Rejected message) w)) = Some message
        /\ notifications (Delete i (Rejected message) w)
           = notifications w ++ [toast_error "Failed to delete user."]).
Proof. repeat split. Qed.

(** C5. When the name, the email or the department of the draft is the
    empty string, Submit sets the validation error of the form, issues
    no request and leaves the record store (the collection included) as
    it was, whatever the remote side would have answered. *)
Theorem submit_with_empty_field_is_rejected (w : World) (resp : response UserRecord) :
  fd_name (formData (form w)) = ""
  \/ fd_email (formData (form w)) = ""
  \/ company_name (fd_company (formData (form w))) = "" ->
  form_error (form (Submit resp w)) = Some "All fields are required."
  /\ requests (Submit resp w) = requests w
  /\ users (store (Submit resp w)) = users (store w)
  /\ store (Submit resp w) = store w
  /\ formData (form (Submit resp w)) = formData (form w).
Proof.
  intros H. unfold Submit, UserForm.handleSubmit.
  assert (E : not_str (fd_name (formData (form w)))
              || not_str (fd_email (formData (form w)))
              || not_str (company_name (fd_company (formData (form w)))) = true).
  { unfold not_str. destruct H as [-> | [-> | ->]]; simpl;
      rewrite ?orb_true_r; reflexivity. }
  rewrite E. repeat split.
Qed.

Lemma submit_with_empty_field_is_rejected_witness :
  let w := exec (setFormData {| fd_name := "Jane Doe"; fd_email := "";
                                fd_company := {| company_name := "Eng" |} |})
             (with_users [mk_user 1 "Ann Lee" "a@x.com" "Ops"] initial_world) in
  form_error (form (Submit (Fulfilled jane) w)) = Some "All fields are required."
  /\ requests (Submit (Fulfilled jane) w) = requests w
  /\ users (store (Submit (Fulfilled jane) w)) = users (store w)
  /\ store (Submit (Fulfilled jane) w) = store w
  /\ formData (form (Submit (Fulfilled jane) w)) = formData (form w).
Proof.
  intros w. apply (submit_with_empty_field_is_rejected w (Fulfilled jane)).
  right. left. reflexivity.
Defined.

(** ** Pagination *)

Section Pagination.

Implicit Types (r : ListState) (w : World).

(** [Math.ceil(n / 13)] is the ceiling of the exact quotient. *)
Lemma Math_ceil_div_pages (n : Z) :
  usersPerPage * (Math_ceil (div n usersPerPage) - 1) < n
  <= usersPerPage * Math_ceil (div n usersPerPage).
Proof.
  unfold Math_ceil, div, usersPerPage, Qceiling, Qfloor. cbn.
  rewrite Z.mul_1_r. Z.div_mod_to_equations. lia.
Qed.

(** With both bounds non-negative, [slice] takes [end - start]
    elements after dropping [start]. *)
Lemma slice_nonneg {A : Type} (arr : list A) (a b : Z) :
  0 <= a -> 0 <= b ->
  slice arr a b = take (Z.to_nat (b - a)) (drop (Z.to_nat a) arr).
Proof.
  intros Ha Hb. unfold slice.
  destruct (Z.ltb_spec a 0) as [?|_]; [lia|].
  destruct (Z.ltb_spec b 0) as [?|_]; [lia|].
  destruct (Z_le_gt_dec (Z.of_nat (length arr)) a) as [Hlen|Hlen].
  - rewrite !drop_ge by lia. now rewrite !take_nil.
  - replace (Z.min a (Z.of_nat (length arr))) with a by lia.
    destruct (Z_le_gt_dec b (Z.of_nat (length arr))) as [Hb'|Hb'].
    + now replace (Z.min b (Z.of_nat (length arr))) with b by lia.
    + rewrite !take_ge; [reflexivity| |]; rewrite length_drop; lia.
Qed.

Lemma currentUsers_take_drop r :
  1 <= currentPage r ->
  UserList.currentUsers r
  = take 13 (drop (Z.to_nat ((currentPage r - 1) * 13)) (users r)).
Proof.
  intros Hp. unfold UserList.currentUsers, UserList.indexOfFirstUser,
    UserList.indexOfLastUser, usersPerPage.
  rewrite slice_nonneg by lia. f_equal; [lia|]. f_equal. lia.
Qed.

Lemma currentUsers_length r :
  1 <= currentPage r ->
  Z.of_nat (length (UserList.currentUsers r))
  = Z.min 13 (Z.max 0 (total r - (currentPage r - 1) * 13)).
Proof.
  intros Hp. rewrite currentUsers_take_drop by exact Hp.
  rewrite length_take, length_drop. unfold total. lia.
Qed.

End Pagination.

(** C6. On a non-empty collection and for a page [p] between 1 and
    [ceil(total / 13)], the visible slice is made of the records at the
    offsets [(p-1)*13 .. p*13 - 1]: it has at least one and at most 13
    records, and the last page has [total mod 13] of them, or 13 when
    [total] is a multiple of 13. *)
Theorem visible_slice_of_page (r : ListState) :
  users r <> [] ->
  1 <= currentPage r <= Math_ceil (div (total r) usersPerPage) ->
  UserList.currentUsers r
  = take 13 (drop (Z.to_nat ((currentPage r - 1) * 13)) (users r))
  /\ (forall k : nat,
        UserList.currentUsers r !! k
        = if decide (k < 13)%nat
          then users r !! (Z.to_nat ((currentPage r - 1) * 13) + k)%nat
          else None)
  /\ (1 <= length (UserList.currentUsers r) <= 13)%nat
  /\ (currentPage r = Math_ceil (div (total r) usersPerPage) ->
      Z.of_nat (length (UserList.currentUsers r))
      = if total r mod 13 =? 0 then 13 else total r mod 13).
Proof.
  intros Hne [Hp1 Hp2].
  pose proof (Math_ceil_div_pages (total r)) as Hceil.
  pose proof (currentUsers_length r Hp1) as Hlen.
  unfold usersPerPage in *.
  split; [now apply currentUsers_take_drop|].
  split.
  { intros k. rewrite currentUsers_take_drop by exact Hp1.
    destruct (decide (k < 13)%nat) as [Hk|Hk].
    - rewrite lookup_take_lt by exact Hk. apply lookup_drop.
    - apply lookup_take_ge. lia. }
  split; [lia|].
  intros Hlast. rewrite Hlen. rewrite <- Hlast in Hceil.
  destruct (Z.eqb_spec (total r mod 13) 0) as [Hm|Hm];
    Z.div_mod_to_equations; lia.
Qed.

Lemma visible_slice_of_page_witness :
  let r := store (at_page 2 (with_users fourteen initial_world)) in
  UserList.currentUsers r = [mk_user 14 "Ann Lee" "a@x.com" "Ops"]
  /\ Z.of_nat (length (UserList.currentUsers r)) = 1.
Proof.
  intros r.
  destruct (visible_slice_of_page r) as (Hslice & _ & _ & Hlast).
  - discriminate.
  - vm_compute. split; discriminate.
  - split; [rewrite Hslice; reflexivity|].
    rewrite Hlast; reflexivity.
Defined.

(** C7. The pages from 1 on that show a record are those up to
    [Math.ceil(total / 13)], which is the ceiling of [total / 13].  Prev
    is disabled exactly on page 1 and Next exactly on page
    [ceil(total / 13)]; a disabled button changes nothing, an enabled one
    moves by one page, and from a page of the range both buttons lead to
    a page of the range.  With 14 records, page 2 shows one record and
    has Next disabled, and page 1 has Prev disabled. *)
Theorem page_range_and_navigation (w : World) :
  let r := store w in
  let last_page := Math_ceil (div (total r) usersPerPage) in
  is_ceiling_of_pages r last_page
  /\ (1 <= currentPage r ->
      (UserList.currentUsers r <> [] <-> currentPage r <= last_page))
  /\ (UserList.prev_disabled r = true <-> currentPage r = 1)
  /\ (UserList.next_disabled r = true <-> currentPage r = last_page)
  /\ (UserList.prev_disabled r = true -> Prev w = w)
  /\ (UserList.next_disabled r = true -> Next w = w)
  /\ (UserList.prev_disabled r = false ->
      currentPage (store (Prev w)) = currentPage r - 1)
  /\ (UserList.next_disabled r = false ->
      currentPage (store (Next w)) = currentPage r + 1)
  /\ users (store (Prev w)) = users r
  /\ users (store (Next w)) = users r
  /\ (1 <= currentPage r <= last_page ->
      1 <= currentPage (store (Prev w)) <= last_page
      /\ 1 <= currentPage (store (Next w)) <= last_page)
  /\ (let w14 := with_users fourteen initial_world in
      length (UserList.currentUsers (store (at_page 2 w14))) = 1%nat
      /\ UserList.next_disabled (store (at_page 2 w14)) = true
      /\ Next (at_page 2 w14) = at_page 2 w14
      /\ UserList.prev_disabled (store (at_page 1 w14)) = true
      /\ Prev (at_page 1 w14) = at_page 1 w14).
Proof.
  intros r last_page.
  pose proof (Math_ceil_div_pages (total r)) as Hceil.
  fold last_page in Hceil.
  assert (Hprev : UserList.prev_disabled r = true <-> currentPage r = 1).
  { unfold UserList.prev_disabled. apply Z.eqb_eq. }
  assert (Hnext : UserList.next_disabled r = true <-> currentPage r = last_page).
  { unfold UserList.next_disabled. apply Z.eqb_eq. }
  assert (HP : forall b, UserList.prev_disabled r = b ->
               Prev w = if b then w else exec (UserList.paginate (currentPage r - 1)) w).
  { intros b Hb. unfold Prev, UserList.click_Prev. fold r. rewrite Hb.
    destruct b; [destruct w|]; reflexivity. }
  assert (HN : forall b, UserList.next_disabled r = b ->
               Next w = if b then w else exec (UserList.paginate (currentPage r + 1)) w).
  { intros b Hb. unfold Next, UserList.click_Next. fold r. rewrite Hb.
    destruct b; [destruct w|]; reflexivity. }
  split; [exact Hceil|].
  split.
  { intros Hp. pose proof (currentUsers_length r Hp) as Hlen.
    unfold usersPerPage in Hceil.
    destruct (UserList.currentUsers r) as [|u us] eqn:E; simpl in Hlen.
    - split; [congruence|]. intros Hle. lia.
    - split; [intros _; lia | discriminate]. }
  split; [exact Hprev|].
  split; [exact Hnext|].
  split; [intros Hd; now rewrite (HP true Hd)|].
  split; [intros Hd; now rewrite (HN true Hd)|].
  split; [intros Hd; now rewrite (HP false Hd)|].
  split; [intros Hd; now rewrite (HN false Hd)|].
  split.
  { rewrite (HP _ eq_refl). now destruct (UserList.prev_disabled r). }
  split.
  { rewrite (HN _ eq_refl). now destruct (UserList.next_disabled r). }
  split.
  { intros [Hp1 Hp2]. rewrite (HP _ eq_refl), (HN _ eq_refl). split.
    - destruct (UserList.prev_disabled r) eqn:Hd; [now split|].
      assert (currentPage r <> 1) by (rewrite <- Hprev; congruence).
      simpl. lia.
    - destruct (UserList.next_disabled r) eqn:Hd; [now split|].
      assert (currentPage r <> last_page) by (rewrite <- Hnext; congruence).
      simpl. lia. }
  vm_compute. repeat split.
Qed.

Lemma page_range_and_navigation_witness :
  let w := at_page 2 (with_users fourteen initial_world) in
  Next w = w
  /\ currentPage (store (Prev w)) = 1
  /\ 1 <= currentPage (store (Prev w)) <= 2.
Proof.
  intros w.
  destruct (page_range_and_navigation w)
    as (_ & _ & _ & _ & _ & Hnext & Hprev & _ & _ & _ & Hrange & _).
  split; [apply Hnext; reflexivity|].
  split; [rewrite Hprev; reflexivity|].
  apply Hrange. vm_compute. split; discriminate.
Defined.

(** ** The table row *)

Section Row.

Lemma or_str_empty (s : string) : or_str s "" = s.
Proof.
  unfold or_str. destruct (String.eqb_spec s ""); congruence.
Qed.

Lemma split_head (sep : ascii) (s : string) :
  exists pieces, split sep s = before_first sep s :: pieces.
Proof.
  induction s as [|c rest [pieces IH]]; simpl; [now eexists|].
  destruct (Ascii.eqb c sep); [now eexists|].
  rewrite IH. now eexists.
Qed.

Lemma split_first_piece (sep : ascii) (s : string) :
  index_or (split sep s) 0 "" = before_first sep s.
Proof.
  destruct (split_head sep s) as [pieces ->].
  unfold index_or. simpl. apply or_str_empty.
Qed.

Lemma split_second_piece (sep : ascii) (s : string) :
  index_or (split sep s) 1 "" = before_first sep (after_first sep s).
Proof.
  induction s as [|c rest IH]; simpl; [reflexivity|].
  destruct (Ascii.eqb c sep).
  - exact (split_first_piece sep rest).
  - destruct (split_head sep rest) as [pieces E].
    rewrite E in IH |- *. exact IH.
Qed.

End Row.

(** C8, as the code has it.  The first and the last name of a row are
    computed from the name of the record (the record stores neither): the
    first name is the text before the first space, and the last name is
    the text after the first space up to the next space, not all of the
    text after the first space. *)
Theorem row_names_are_first_two_words (userData : UserRecord) :
  User.firstName userData = before_first " " (name userData)
  /\ User.lastName userData
     = before_first " " (after_first " " (name userData)).
Proof.
  unfold User.firstName, User.lastName, User.nameParts.
  rewrite or_str_empty. split.
  - apply split_first_piece.
  - apply split_second_piece.
Qed.

(** C8, as stated, fails on a name of three words: the last name shown
    for "Mary Ann Smith" is "Ann", while the text after the first space
    is "Ann Smith". *)
Lemma last_name_is_not_text_after_first_space :
  User.firstName (mk_user 1 "Mary Ann Smith" "m@x.com" "Eng") = "Mary"
  /\ User.lastName (mk_user 1 "Mary Ann Smith" "m@x.com" "Eng") = "Ann"
  /\ after_first " " "Mary Ann Smith" = "Ann Smith"
  /\ ~ (forall userData : UserRecord,
         User.firstName userData = before_first " " (name userData)
         /\ User.lastName userData = after_first " " (name userData)).
Proof.
  split; [reflexivity|]. split; [reflexivity|]. split; [reflexivity|].
  intros H.
  destruct (H (mk_user 1 "Mary Ann Smith" "m@x.com" "Eng")) as [_ Hlast].
  vm_compute in Hlast. discriminate.
Qed.

(** ** Uniqueness of ids *)

Section Uniqueness.

Implicit Types (w : World) (user : UserRecord) (i : number).

Lemma sublist_fmap {A B : Type} (f : A -> B) (l k : list A) :
  sublist l k -> sublist (f <$> l) (f <$> k).
Proof. induction 1; simpl; constructor; assumption. Qed.

Lemma Edit_keeps_ids_unique w user sel :
  selectedUser (store w) = Some sel ->
  NoDup (id <$> users (store w)) ->
  NoDup (id <$> users (store (AddOrEdit user w))).
Proof.
  intros Hsel Hnd. rewrite (AddOrEdit_edit_users w user sel Hsel).
  now rewrite edit_keeps_ids.
Qed.

Lemma Delete_keeps_ids_unique w i resp :
  NoDup (id <$> users (store w)) ->
  NoDup (id <$> users (store (Delete i resp w))).
Proof.
  intros Hnd. destruct resp as [ack|message]; [|exact Hnd].
  rewrite Delete_fulfilled_users, filter_strict_ne_others.
  eapply sublist_NoDup; [exact Hnd|].
  apply sublist_fmap, sublist_filter.
Qed.

Lemma Load_keeps_ids_unique w (data : list UserRecord) message :
  NoDup (id <$> users (store w)) ->
  (NoDup (id <$> data) -> NoDup (id <$> users (store (Load (Fulfilled data) w))))
  /\ NoDup (id <$> users (store (Load (Rejected message) w))).
Proof.
  intros Hnd. split; [now rewrite Load_fulfilled_users | exact Hnd].
Qed.

(** Add keeps the ids distinct when the largest id is an integer from
    [-2^53] up to, and not including, [2^53]: the new id is then above
    all of them. *)
Lemma Add_keeps_ids_unique w user m :
  selectedUser (store w) = None ->
  Math_max (id <$> users (store w)) = Int m ->
  - 2 ^ 53 <= m < 2 ^ 53 ->
  NoDup (id <$> users (store w)) ->
  NoDup (id <$> users (store (AddOrEdit user w))).
Proof.
  intros Hsel Hmax Hm Hnd. rewrite (AddOrEdit_add_users w user Hsel).
  rewrite fmap_app. apply NoDup_app. split; [exact Hnd|].
  split; [|apply NoDup_singleton].
  intros i Hi Hnew. apply list_elem_of_singleton in Hnew. simpl id in Hnew.
  pose proof (Math_max_upper _ _ Hi) as Hi0.
  rewrite Hmax, plus_one_exact in Hnew by exact Hm.
  rewrite Hmax in Hi0. subst i. simpl in Hi0. lia.
Qed.

End Uniqueness.

(** C9, at the input where the code breaks it.  On the page as it starts
    (empty collection), a first record is added through the form and
    gets the id [-Infinity]; the ids are distinct.  A second record added
    the same way gets [-Infinity] again: two records share an id. *)
Theorem add_twice_from_empty_repeats_id :
  let draft1 := {| fd_name := "Jane Doe"; fd_email := "j@x.com";
                   fd_company := {| company_name := "Eng" |} |} in
  let draft2 := {| fd_name := "Bo Chen"; fd_email := "b@x.com";
                   fd_company := {| company_name := "Ops" |} |} in
  let w1 := Submit (Fulfilled (mk_user 11 "Jane Doe" "j@x.com" "Eng"))
              (exec (UserList.click_AddUser;; setFormData draft1) initial_world) in
  let w2 := Submit (Fulfilled (mk_user 11 "Bo Chen" "b@x.com" "Ops"))
              (exec (UserList.click_AddUser;; setFormData draft2) w1) in
  id <$> users (store w1) = [NegInfinity]
  /\ NoDup (id <$> users (store w1))
  /\ id <$> users (store w2) = [NegInfinity; NegInfinity]
  /\ ~ NoDup (id <$> users (store w2)).
Proof.
  intros draft1 draft2 w1 w2.
  assert (E1 : id <$> users (store w1) = [NegInfinity]) by reflexivity.
  assert (E2 : id <$> users (store w2) = [NegInfinity; NegInfinity]) by reflexivity.
  rewrite E1, E2.
  split; [reflexivity|]. split; [apply NoDup_singleton|].
  split; [reflexivity|].
  intros Hnd. apply NoDup_cons in Hnd as [Hnotin _].
  apply Hnotin, list_elem_of_singleton. reflexivity.
Qed.

(** C10. On an empty collection with no record selected, Add appends
    exactly one record; its id is [Math.max() + 1], which is
    [-Infinity] and no integer.  Nothing guards the case: no error is
    stored and the success notification is emitted. *)
Theorem add_on_empty_assigns_neg_infinity (w : World) (user : UserRecord) :
  users (store w) = [] ->
  selectedUser (store w) = None ->
  users (store (AddOrEdit user w)) = [with_id user NegInfinity]
  /\ length (users (store (AddOrEdit user w))) = 1%nat
  /\ plus (Math_max (id <$> users (store w))) (Int 1) = NegInfinity
  /\ (forall u, u ∈ users (store (AddOrEdit user w)) ->
       id u = NegInfinity /\ forall z : Z, id u <> Int z)
  /\ error (store (AddOrEdit user w)) = error (store w)
  /\ notifications (AddOrEdit user w)
     = notifications w ++ [toast_success "User added successfully!"].
Proof.
  intros Hemp Hsel.
  assert (E : users (store (AddOrEdit user w)) = [with_id user NegInfinity]).
  { rewrite (AddOrEdit_add_users w user Hsel), Hemp. reflexivity. }
  rewrite E, Hemp.
  split; [reflexivity|]. split; [reflexivity|]. split; [reflexivity|].
  split.
  { intros u Hu. apply list_elem_of_singleton in Hu as ->.
    split; [reflexivity | discriminate]. }
  unfold AddOrEdit, UserList.handleAddOrEditUser. rewrite Hsel.
  split; reflexivity.
Qed.

Lemma add_on_empty_assigns_neg_infinity_witness :
  users (store (AddOrEdit jane initial_world)) = [with_id jane NegInfinity]
  /\ length (users (store (AddOrEdit jane initial_world))) = 1%nat.
Proof.
  destruct (add_on_empty_assigns_neg_infinity initial_world jane eq_refl eq_refl)
    as (Husers & Hlen & _).
  split; [exact Husers | exact Hlen].
Defined.

(** ** Further properties of the record store *)

Section StoreMore.

Implicit Types (w : World) (user u : UserRecord) (i j : number).

Lemma others_all i (us : list UserRecord) :
  (forall u, u ∈ us -> id u <> i) -> others i us = us.
Proof.
  unfold others. induction us as [|u us IH]; intros H; [reflexivity|].
  rewrite filter_cons, decide_True by (apply H; left).
  f_equal. apply IH. intros v Hv. apply H. now right.
Qed.

Lemma others_comm i j (us : list UserRecord) :
  others i (others j us) = others j (others i us).
Proof.
  unfold others. induction us as [|u us IH]; [reflexivity|].
  rewrite !filter_cons.
  destruct (decide (id u <> i)), (decide (id u <> j));
    rewrite ?filter_cons, ?decide_True, ?decide_False by assumption;
    now rewrite IH.
Qed.

Lemma others_idemp i (us : list UserRecord) :
  others i (others i us) = others i us.
Proof.
  apply others_all. intros u Hu. now apply list_elem_of_filter in Hu as [Hu _].
Qed.

Lemma Math_max_snoc (xs : list number) (x : number) :
  Math_max (xs ++ [x]) = max2 (Math_max xs) x.
Proof. unfold Math_max. now rewrite fold_left_app. Qed.

(** The id that Add assigns is not in the collection when the collection
    is empty or its largest id is an integer from [-2^53] up to, and not
    including, [2^53]. *)
Lemma new_id_fresh (us : list UserRecord) :
  us = []
  \/ (exists m, Math_max (id <$> us) = Int m /\ - 2 ^ 53 <= m < 2 ^ 53) ->
  plus (Math_max (id <$> us)) (Int 1) ∉ id <$> us.
Proof.
  intros [->|(m & Hmax & Hm)]; [apply not_elem_of_nil|].
  intros Hin.
  pose proof (Math_max_upper _ _ Hin) as Hi0.
  rewrite Hmax, plus_one_exact in Hi0 by exact Hm.
  simpl in Hi0. lia.
Qed.

Lemma AddOrEdit_add_selected w user :
  selectedUser (store w) = None ->
  selectedUser (store (AddOrEdit user w)) = None.
Proof.
  intros Hsel. unfold AddOrEdit, UserList.handleAddOrEditUser.
  rewrite Hsel. exact Hsel.
Qed.

Lemma Delete_selected w i resp :
  selectedUser (store (Delete i resp w)) = selectedUser (store w).
Proof. destruct resp; reflexivity. Qed.

Lemma Add_Delete_users w user (ack : unit) :
  selectedUser (store w) = None ->
  users (store w) = []
  \/ (exists m, Math_max (id <$> users (store w)) = Int m /\ - 2 ^ 53 <= m < 2 ^ 53) ->
  users (store (Delete (plus (Math_max (id <$> users (store w))) (Int 1))
                  (Fulfilled ack) (AddOrEdit user w)))
  = users (store w).
Proof.
  intros Hsel Hids.
  rewrite Delete_fulfilled_users, filter_strict_ne_others.
  rewrite (AddOrEdit_add_users w user Hsel).
  pose proof (new_id_fresh _ Hids) as Hfresh.
  unfold others. rewrite filter_app, filter_cons, decide_False by (simpl; tauto).
  rewrite filter_nil, app_nil_r.
  apply others_all. intros u Hu Heq. apply Hfresh.
  rewrite <- Heq. apply list_elem_of_fmap. now exists u.
Qed.

End StoreMore.

(** Deleting an id that no record has: the request is sent and the
    success notification is emitted all the same, and the collection is
    what it was. *)
Theorem delete_of_absent_id (w : World) (i : number) (ack : unit) :
  (forall u, u ∈ users (store w) -> id u <> i) ->
  users (store (Delete i (Fulfilled ack) w)) = users (store w)
  /\ requests (Delete i (Fulfilled ack) w) = requests w ++ [axios_delete_user i]
  /\ notifications (Delete i (Fulfilled ack) w)
     = notifications w ++ [toast_success "User deleted successfully!"].
Proof.
  intros Habs. rewrite Delete_fulfilled_users, filter_strict_ne_others.
  split; [now apply others_all|]. split; reflexivity.
Qed.

Lemma delete_of_absent_id_witness :
  users (store (Delete (Int 7) (Fulfilled tt)
                  (with_users [mk_user 1 "Ann Lee" "a@x.com" "Ops"] initial_world)))
  = [mk_user 1 "Ann Lee" "a@x.com" "Ops"].
Proof.
  apply (delete_of_absent_id
           (with_users [mk_user 1 "Ann Lee" "a@x.com" "Ops"] initial_world) (Int 7) tt).
  intros u Hu. apply list_elem_of_singleton in Hu as ->. discriminate.
Defined.

(** Successful deletes can be done in either order, and deleting an id
    a second time changes nothing more. *)
Theorem deletes_commute (w : World) (i j : number) (ack1 ack2 : unit) :
  users (store (Delete i (Fulfilled ack1) (Delete j (Fulfilled ack2) w)))
  = users (store (Delete j (Fulfilled ack2) (Delete i (Fulfilled ack1) w)))
  /\ users (store (Delete i (Fulfilled ack1) (Delete i (Fulfilled ack2) w)))
     = users (store (Delete i (Fulfilled ack2) w)).
Proof.
  rewrite !Delete_fulfilled_users, !filter_strict_ne_others.
  split; [apply others_comm | apply others_idemp].
Qed.

(** Add followed by a successful Delete of the id just assigned gives
    the collection back, when the collection is empty or its largest id
    is an integer from [-2^53] up to, and not including, [2^53] (so that
    the id just assigned is a new one). *)
Theorem add_then_delete_restores (w : World) (user : UserRecord) (ack : unit) :
  selectedUser (store w) = None ->
  users (store w) = []
  \/ (exists m, Math_max (id <$> users (store w)) = Int m /\ - 2 ^ 53 <= m < 2 ^ 53) ->
  users (store (Delete (plus (Math_max (id <$> users (store w))) (Int 1))
                  (Fulfilled ack) (AddOrEdit user w)))
  = users (store w).
Proof. apply Add_Delete_users. Qed.

Lemma add_then_delete_restores_witness :
  users (store (Delete (Int 2) (Fulfilled tt)
                  (AddOrEdit jane
                     (with_users [mk_user 1 "Ann Lee" "a@x.com" "Ops"] initial_world))))
  = [mk_user 1 "Ann Lee" "a@x.com" "Ops"].
Proof.
  apply (add_then_delete_restores
           (with_users [mk_user 1 "Ann Lee" "a@x.com" "Ops"] initial_world) jane tt).
  - reflexivity.
  - right. exists 1. split; [reflexivity|].
    change (2 ^ 53) with 9007199254740992. lia.
Defined.

(** Ids are reused: when the record that Add created is deleted, the
    next Add assigns the same id again (collection empty, or largest id
    an integer from [-2^53] up to, and not including, [2^53]). *)
Theorem add_after_delete_reuses_id
    (w : World) (user1 user2 : UserRecord) (ack : unit) :
  selectedUser (store w) = None ->
  users (store w) = []
  \/ (exists m, Math_max (id <$> users (store w)) = Int m /\ - 2 ^ 53 <= m < 2 ^ 53) ->
  let i := plus (Math_max (id <$> users (store w))) (Int 1) in
  users (store (AddOrEdit user1 w)) = users (store w) ++ [with_id user1 i]
  /\ users (store (AddOrEdit user2 (Delete i (Fulfilled ack) (AddOrEdit user1 w))))
     = users (store w) ++ [with_id user2 i].
Proof.
  intros Hsel Hids i. split; [now apply AddOrEdit_add_users|].
  rewrite AddOrEdit_add_users
    by (rewrite Delete_selected; now apply AddOrEdit_add_selected).
  unfold i. now rewrite (Add_Delete_users w user1 ack Hsel Hids).
Qed.

Lemma add_after_delete_reuses_id_witness :
  let w := with_users [mk_user 1 "Ann Lee" "a@x.com" "Ops"] initial_world in
  users (store (AddOrEdit (mk_user 11 "Bo Chen" "b@x.com" "Ops")
                  (Delete (Int 2) (Fulfilled tt) (AddOrEdit jane w))))
  = [mk_user 1 "Ann Lee" "a@x.com" "Ops"; mk_user 2 "Bo Chen" "b@x.com" "Ops"].
Proof.
  intros w.
  destruct (add_after_delete_reuses_id w jane (mk_user 11 "Bo Chen" "b@x.com" "Ops") tt)
    as [_ H].
  - reflexivity.
  - right. exists 1. split; [reflexivity|].
    change (2 ^ 53) with 9007199254740992. lia.
  - exact H.
Defined.

(** ** Further properties: ids, edits, overlapping deletes *)

Section IdsMore.

Implicit Types (w : World) (user u : UserRecord).

Lemma AddAll_users (news : list UserRecord) : forall w z,
  selectedUser (store w) = None ->
  Math_max (id <$> users (store w)) = Int z ->
  - 2 ^ 53 <= z ->
  z + Z.of_nat (length news) <= 2 ^ 53 ->
  users (store (AddAll news w))
  = users (store w)
      ++ imap (fun k user => with_id user (Int (z + 1 + Z.of_nat k))) news.
Proof.
  induction news as [|user news IH]; intros w z Hsel Hmax Hlo Hhi; simpl.
  - now rewrite app_nil_r.
  - simpl length in Hhi.
    assert (Hone : plus (Int z) (Int 1) = Int (z + 1))
      by (apply plus_one_exact; lia).
    rewrite (IH (AddOrEdit user w) (z + 1)).
    + rewrite (AddOrEdit_add_users w user Hsel), Hmax, Hone.
      rewrite <- app_assoc. simpl. do 2 f_equal.
      * do 2 f_equal. lia.
      * apply imap_ext. intros k v _. simpl. do 2 f_equal. lia.
    + now apply AddOrEdit_add_selected.
    + rewrite (AddOrEdit_add_users w user Hsel), fmap_app.
      change (id <$> [with_id user (plus (Math_max (id <$> users (store w))) (Int 1))])
        with [plus (Math_max (id <$> users (store w))) (Int 1)].
      rewrite Math_max_snoc, Hmax, Hone. simpl. f_equal. lia.
    + lia.
    + lia.
Qed.

End IdsMore.

(** Records added one after the other get consecutive ids as long as
    the ids stay within the integers that JavaScript adds exactly: when
    the largest id is the integer [z >= -2^53] and [n] records are added
    with [z + n <= 2^53], the [k]-th added record (from 0) gets
    [z + 1 + k], and the records are appended in the order of the adds. *)
Theorem consecutive_adds_consecutive_ids
    (w : World) (z : Z) (news : list UserRecord) :
  selectedUser (store w) = None ->
  Math_max (id <$> users (store w)) = Int z ->
  - 2 ^ 53 <= z ->
  z + Z.of_nat (length news) <= 2 ^ 53 ->
  users (store (AddAll news w))
  = users (store w)
      ++ imap (fun k user => with_id user (Int (z + 1 + Z.of_nat k))) news.
Proof. intros Hsel Hmax Hlo Hhi. now apply AddAll_users. Qed.

Lemma consecutive_adds_consecutive_ids_witness :
  users (store (AddAll [jane; mk_user 11 "Bo Chen" "b@x.com" "Ops"]
                  (with_users [mk_user 5 "Ann Lee" "a@x.com" "Ops"] initial_world)))
  = [mk_user 5 "Ann Lee" "a@x.com" "Ops"; mk_user 6 "Jane Doe" "j@x.com" "Eng";
     mk_user 7 "Bo Chen" "b@x.com" "Ops"].
Proof.
  apply (consecutive_adds_consecutive_ids
           (with_users [mk_user 5 "Ann Lee" "a@x.com" "Ops"] initial_world) 5
           [jane; mk_user 11 "Bo Chen" "b@x.com" "Ops"]);
    [reflexivity | reflexivity | | ];
    change (2 ^ 53) with 9007199254740992; simpl; lia.
Defined.

(** The id of the record that the remote side returns for a creation is
    not used: two answers that differ in the id only lead to the same
    state of the page. *)
Theorem add_discards_response_id (w : World) (data : UserRecord) (i : number) :
  selectedUser (store w) = None ->
  Submit (Fulfilled (with_id data i)) w = Submit (Fulfilled data) w.
Proof.
  intros Hsel. unfold Submit, UserForm.handleSubmit, UserList.handleAddOrEditUser.
  rewrite Hsel.
  destruct (not_str (fd_name (formData (form w)))
            || not_str (fd_email (formData (form w)))
            || not_str (company_name (fd_company (formData (form w)))));
    reflexivity.
Qed.

Lemma add_discards_response_id_witness :
  let w := Change UserForm.input_name "Jane Doe"
             (Change UserForm.input_email "j@x.com"
                (ChangeDepartment "Eng" (BeginAdd initial_world))) in
  Submit (Fulfilled (with_id jane (Int 500))) w = Submit (Fulfilled jane) w.
Proof.
  intros w. apply (add_discards_response_id w jane (Int 500)). reflexivity.
Defined.

(** An Edit whose record has an id that is not in the collection changes
    no entry; the update is reported as a success and the form is
    closed all the same. *)
Theorem edit_with_unknown_id (w : World) (sel user : UserRecord) :
  selectedUser (store w) = Some sel ->
  (forall u, u ∈ users (store w) -> id u <> id user) ->
  users (store (AddOrEdit user w)) = users (store w)
  /\ notifications (AddOrEdit user w)
     = notifications w ++ [toast_success "User updated successfully!"]
  /\ showForm (store (AddOrEdit user w)) = false
  /\ error (store (AddOrEdit user w)) = error (store w).
Proof.
  intros Hsel Habs. split.
  - rewrite (AddOrEdit_edit_users w user sel Hsel).
    rewrite <- (list_fmap_id (users (store w))) at 2.
    apply list_fmap_ext. intros k u Hk. simpl.
    destruct (strict_eq (id u) (id user)) eqn:E; [|reflexivity].
    apply strict_eq_true in E. exfalso. apply (Habs u); [|exact E].
    apply list_elem_of_lookup. now exists k.
  - unfold AddOrEdit, UserList.handleAddOrEditUser. rewrite Hsel.
    repeat split.
Qed.

Lemma edit_with_unknown_id_witness :
  let w := exec (setSelectedUser (Some (mk_user 1 "Ann Lee" "a@x.com" "Ops")))
             (with_users [mk_user 1 "Ann Lee" "a@x.com" "Ops"] initial_world) in
  users (store (AddOrEdit (mk_user 9 "Ann Li" "a@x.com" "Ops") w)) = users (store w).
Proof.
  intros w.
  apply (edit_with_unknown_id w (mk_user 1 "Ann Lee" "a@x.com" "Ops")
           (mk_user 9 "Ann Li" "a@x.com" "Ops")).
  - reflexivity.
  - intros u Hu. apply list_elem_of_singleton in Hu as ->. discriminate.
Defined.

(** Two deletes started in the same render (both handlers hold the
    list of that render): when both requests succeed, the list is the
    list of that render without the second id only, so a record removed
    by the first delete is shown again.  Both requests have been sent. *)
Theorem overlapping_deletes_keep_last_only (w : World) (i j : number) (ack : unit) :
  let r := store w in
  let w2 := exec (UserList.handleDeleteUser r j (Fulfilled ack))
              (exec (UserList.handleDeleteUser r i (Fulfilled ack)) w) in
  users (store w2) = others j (users r)
  /\ (forall u, u ∈ users r -> id u = i -> i <> j ->
       (u ∉ users (store (Delete i (Fulfilled ack) w))) /\ (u ∈ users (store w2)))
  /\ requests w2 = requests w ++ [axios_delete_user i; axios_delete_user j].
Proof.
  intros r w2.
  assert (E : users (store w2) = others j (users r)).
  { unfold w2. simpl. apply filter_strict_ne_others. }
  split; [exact E|]. split.
  - intros u Hu Hi Hij. split.
    + rewrite Delete_fulfilled_users, filter_strict_ne_others.
      intros Hin. apply list_elem_of_filter in Hin as [Hne _]. contradiction.
    + rewrite E. apply list_elem_of_filter. split; [congruence | exact Hu].
  - unfold w2. simpl. now rewrite <- app_assoc.
Qed.

Lemma overlapping_deletes_keep_last_only_witness :
  let w := with_users [mk_user 1 "Ann Lee" "a@x.com" "Ops";
                       mk_user 2 "Bo Chen" "b@x.com" "Ops"] initial_world in
  mk_user 1 "Ann Lee" "a@x.com" "Ops"
  ∈ users (store (exec (UserList.handleDeleteUser (store w) (Int 2) (Fulfilled tt))
                   (exec (UserList.handleDeleteUser (store w) (Int 1) (Fulfilled tt)) w))).
Proof.
  intros w.
  destruct (overlapping_deletes_keep_last_only w (Int 1) (Int 2) tt) as (_ & H & _).
  apply (H (mk_user 1 "Ann Lee" "a@x.com" "Ops")).
  - apply list_elem_of_here.
  - reflexivity.
  - discriminate.
Defined.

(** ** The form *)

Section Form.

Implicit Types (w : World) (user u : UserRecord) (d : FormData).

Lemma not_str_false (s : string) : s <> "" -> not_str s = false.
Proof. intros H. unfold not_str. now apply String.eqb_neq. Qed.

Lemma validation_passes d :
  fd_name d <> "" -> fd_email d <> "" -> company_name (fd_company d) <> "" ->
  not_str (fd_name d) || not_str (fd_email d)
  || not_str (company_name (fd_company d)) = false.
Proof. intros Hn He Hd. now rewrite !not_str_false. Qed.

(** What a Submit with a valid draft does, by the answer. *)
Lemma Submit_valid w resp :
  fd_name (formData (form w)) <> "" ->
  fd_email (formData (form w)) <> "" ->
  company_name (fd_company (formData (form w))) <> "" ->
  Submit resp w
  = exec (send (match selectedUser (store w) with
                | Some sel => axios_put_user (id sel) (formData (form w))
                | None => axios_post_user (formData (form w))
                end);;
          match resp with
          | Fulfilled data =>
              UserList.handleAddOrEditUser (store w) data;;
              setFormData empty_form;;
              setSelectedUser None;;
              setShowForm false
          | Rejected message => setFormError message
          end) w.
Proof.
  intros Hn He Hd. unfold Submit, UserForm.handleSubmit.
  now rewrite validation_passes.
Qed.

Lemma Type_store k w :
  store (Type_ k w) = store w
  /\ requests (Type_ k w) = requests w
  /\ notifications (Type_ k w) = notifications w
  /\ form_error (form (Type_ k w)) = form_error (form w).
Proof. destruct k as [[|] v|v]; repeat split. Qed.

Lemma Typing_store (ks : list keystroke) : forall w,
  store (Typing ks w) = store w
  /\ requests (Typing ks w) = requests w
  /\ notifications (Typing ks w) = notifications w
  /\ form_error (form (Typing ks w)) = form_error (form w).
Proof.
  induction ks as [|k ks IH]; intros w; simpl; [repeat split|].
  destruct (IH (Type_ k w)) as (-> & -> & -> & ->). apply Type_store.
Qed.

Lemma Submit_add_fulfilled w (data : UserRecord) :
  fd_name (formData (form w)) <> "" ->
  fd_email (formData (form w)) <> "" ->
  company_name (fd_company (formData (form w))) <> "" ->
  selectedUser (store w) = None ->
  let w2 := Submit (Fulfilled data) w in
  requests w2 = requests w ++ [axios_post_user (formData (form w))]
  /\ users (store w2)
     = users (store w)
         ++ [with_id data (plus (Math_max (id <$> users (store w))) (Int 1))]
  /\ showForm (store w2) = false
  /\ selectedUser (store w2) = None
  /\ formData (form w2) = empty_form
  /\ notifications w2 = notifications w ++ [toast_success "User added successfully!"]
  /\ currentPage (store w2) = currentPage (store w).
Proof.
  intros Hn He Hd Hsel w2. unfold w2. rewrite Submit_valid by assumption.
  unfold UserList.handleAddOrEditUser. rewrite Hsel. repeat split.
Qed.

Lemma Submit_edit_fulfilled w (sel data : UserRecord) :
  fd_name (formData (form w)) <> "" ->
  fd_email (formData (form w)) <> "" ->
  company_name (fd_company (formData (form w))) <> "" ->
  selectedUser (store w) = Some sel ->
  let w2 := Submit (Fulfilled data) w in
  requests w2 = requests w ++ [axios_put_user (id sel) (formData (form w))]
  /\ users (store w2)
     = (fun u => if strict_eq (id u) (id data) then data else u) <$> users (store w)
  /\ showForm (store w2) = false
  /\ selectedUser (store w2) = None
  /\ formData (form w2) = empty_form
  /\ notifications w2 = notifications w ++ [toast_success "User updated successfully!"]
  /\ currentPage (store w2) = currentPage (store w).
Proof.
  intros Hn He Hd Hsel w2. unfold w2. rewrite Submit_valid by assumption.
  unfold UserList.handleAddOrEditUser. rewrite Hsel. repeat split.
Qed.

(** Replacing by id overwrites one position when the ids are distinct. *)
Lemma edit_map_insert user (us : list UserRecord) (k : nat) u :
  NoDup (id <$> us) -> us !! k = Some u -> id u = id user ->
  (fun u => if strict_eq (id u) (id user) then user else u) <$> us
  = <[k := user]> us.
Proof.
  intros Hnd Hk Hid. apply list_eq. intros j. rewrite list_lookup_fmap.
  destruct (decide (j = k)) as [->|Hjk].
  - rewrite Hk. simpl.
    rewrite (proj2 (strict_eq_true (id u) (id user)) Hid).
    symmetry. apply list_lookup_insert_eq. now apply lookup_lt_Some in Hk.
  - rewrite list_lookup_insert_ne by congruence.
    destruct (us !! j) as [v|] eqn:Hj; [|reflexivity]. simpl.
    destruct (strict_eq (id v) (id user)) eqn:E; [|reflexivity].
    apply strict_eq_true in E. exfalso. apply Hjk.
    apply (NoDup_lookup (id <$> us) j k (id user)); [exact Hnd| |].
    + now rewrite list_lookup_fmap, Hj, <- E.
    + now rewrite list_lookup_fmap, Hk, <- Hid.
Qed.

End Form.

(** A Submit whose request is rejected changes neither the record store
    nor the draft and emits no notification; with a valid draft the
    request has been sent (an update of the selected id, or a creation)
    and the message of the error is the error of the form. *)
Theorem rejected_submit_keeps_draft (w : World) (message : string) :
  store (Submit (Rejected message) w) = store w
  /\ formData (form (Submit (Rejected message) w)) = formData (form w)
  /\ notifications (Submit (Rejected message) w) = notifications w
  /\ (fd_name (formData (form w)) <> "" ->
      fd_email (formData (form w)) <> "" ->
      company_name (fd_company (formData (form w))) <> "" ->
      form_error (form (Submit (Rejected message) w)) = Some message
      /\ requests (Submit (Rejected message) w)
         = requests w
             ++ [match selectedUser (store w) with
                 | Some sel => axios_put_user (id sel) (formData (form w))
                 | None => axios_post_user (formData (form w))
                 end]).
Proof.
  assert (H : store (Submit (Rejected message) w) = store w
              /\ formData (form (Submit (Rejected message) w)) = formData (form w)
              /\ notifications (Submit (Rejected message) w) = notifications w).
  { unfold Submit, UserForm.handleSubmit.
    destruct (not_str (fd_name (formData (form w)))
              || not_str (fd_email (formData (form w)))
              || not_str (company_name (fd_company (formData (form w)))));
      repeat split. }
  destruct H as (Hs & Hd & Hn). repeat split; try assumption.
  - rewrite Submit_valid by assumption. reflexivity.
  - rewrite Submit_valid by assumption. reflexivity.
Qed.

Lemma rejected_submit_keeps_draft_witness :
  let w := Typing [type_in UserForm.input_name "Jane Doe";
                   type_in UserForm.input_email "j@x.com";
                   type_department "Eng"]
             (BeginAdd initial_world) in
  form_error (form (Submit (Rejected "Network Error") w)) = Some "Network Error"
  /\ requests (Submit (Rejected "Network Error") w)
     = [axios_post_user {| fd_name := "Jane Doe"; fd_email := "j@x.com";
                           fd_company := {| company_name := "Eng" |} |}].
Proof.
  intros w.
  destruct (rejected_submit_keeps_draft w "Network Error") as (_ & _ & _ & H).
  apply H; discriminate.
Defined.

(** Creation from start to end: the form is opened with "Add User", the
    three fields are typed, and the creation succeeds.  One POST with
    the typed draft has been sent; the record of the answer is appended
    with the id [Math.max(...ids) + 1] as JavaScript computes it, which
    is the next integer when the largest id [z] has [-2^53 <= z < 2^53];
    the form is closed, its draft is empty, nothing is selected and the
    success is notified.  The page pointer stays. *)
Theorem add_flow (w : World) (n e d : string) (data : UserRecord) :
  showForm (store w) = false ->
  n <> "" -> e <> "" -> d <> "" ->
  let w1 := Typing [type_in UserForm.input_name n; type_in UserForm.input_email e;
                    type_department d] (BeginAdd w) in
  let w2 := Submit (Fulfilled data) w1 in
  formData (form w1)
  = {| fd_name := n; fd_email := e; fd_company := {| company_name := d |} |}
  /\ requests w2
     = requests w
         ++ [axios_post_user {| fd_name := n; fd_email := e;
                                fd_company := {| company_name := d |} |}]
  /\ users (store w2)
     = users (store w)
         ++ [with_id data (plus (Math_max (id <$> users (store w))) (Int 1))]
  /\ showForm (store w2) = false
  /\ selectedUser (store w2) = None
  /\ formData (form w2) = empty_form
  /\ notifications w2 = notifications w ++ [toast_success "User added successfully!"]
  /\ currentPage (store w2) = currentPage (store w)
  /\ (forall z, Math_max (id <$> users (store w)) = Int z ->
       - 2 ^ 53 <= z < 2 ^ 53 ->
       users (store w2) = users (store w) ++ [with_id data (Int (z + 1))]).
Proof.
  intros Hclosed Hn He Hd w1 w2.
  assert (E1 : formData (form w1)
               = {| fd_name := n; fd_email := e;
                    fd_company := {| company_name := d |} |}).
  { unfold w1, BeginAdd. rewrite Hclosed. reflexivity. }
  assert (Es : store w1 = store (exec UserList.click_AddUser w)
               /\ requests w1 = requests w /\ notifications w1 = notifications w).
  { unfold w1, BeginAdd. rewrite Hclosed. repeat split. }
  destruct Es as (Es & Er & En).
  split; [exact E1|].
  unfold w2. clearbody w1.
  destruct (Submit_add_fulfilled w1 data) as (H1 & H2 & H3 & H4 & H5 & H6 & H7);
    rewrite ?E1, ?Es; try assumption; try reflexivity.
  rewrite H1, H2, H3, H4, H5, H6, H7, E1, Es, Er, En.
  do 7 (split; [reflexivity|]).
  intros z Hmax Hz. simpl users. now rewrite Hmax, plus_one_exact.
Qed.

Lemma add_flow_witness :
  let w := with_users [mk_user 1 "Ann Lee" "a@x.com" "Ops"] initial_world in
  users (store (Submit (Fulfilled jane)
                  (Typing [type_in UserForm.input_name "Jane Doe";
                           type_in UserForm.input_email "j@x.com";
                           type_department "Eng"] (BeginAdd w))))
  = [mk_user 1 "Ann Lee" "a@x.com" "Ops"; mk_user 2 "Jane Doe" "j@x.com" "Eng"].
Proof.
  intros w.
  destruct (add_flow w "Jane Doe" "j@x.com" "Eng" jane) as (_ & _ & H & _);
    [reflexivity | discriminate | discriminate | discriminate |].
  exact H.
Defined.

(** Edit from start to end: with the form closed, Edit is clicked in the
    row of the record [u] at position [k]; the draft holds the fields of
    [u]; a new name is typed and the update succeeds with a record of the
    same id.  One PUT to the id of [u] with the changed draft has been
    sent, position [k] of the collection holds the answer and no other
    position is changed; the form is closed and nothing is selected. *)
Theorem edit_flow (w : World) (k : nat) (u data : UserRecord) (n : string) :
  showForm (store w) = false ->
  users (store w) !! k = Some u ->
  NoDup (id <$> users (store w)) ->
  n <> "" -> email u <> "" -> company_name (company u) <> "" ->
  id data = id u ->
  let w1 := BeginEdit u w in
  let w2 := Submit (Fulfilled data) (Typing [type_in UserForm.input_name n] w1) in
  selectedUser (store w1) = Some u
  /\ showForm (store w1) = true
  /\ formData (form w1) = draft_of u
  /\ requests w2
     = requests w
         ++ [axios_put_user (id u)
               {| fd_name := n; fd_email := email u;
                  fd_company := {| company_name := company_name (company u) |} |}]
  /\ users (store w2) = <[k := data]> (users (store w))
  /\ showForm (store w2) = false
  /\ selectedUser (store w2) = None
  /\ notifications w2 = notifications w ++ [toast_success "User updated successfully!"].
Proof.
  intros Hclosed Hk Hnd Hn He Hd Hid w1 w2.
  split; [reflexivity|]. split; [reflexivity|]. split; [reflexivity|].
  set (w1' := Typing [type_in UserForm.input_name n] w1).
  assert (E1 : formData (form w1')
               = {| fd_name := n; fd_email := email u;
                    fd_company := {| company_name := company_name (company u) |} |})
    by reflexivity.
  assert (Es : users (store w1') = users (store w)) by reflexivity.
  assert (Esel : selectedUser (store w1') = Some u) by reflexivity.
  assert (Er : requests w1' = requests w) by reflexivity.
  assert (En : notifications w1' = notifications w) by reflexivity.
  unfold w2. fold w1'. clearbody w1'. clear w1 w2.
  destruct (Submit_edit_fulfilled w1' u data) as (H1 & H2 & H3 & H4 & _ & H6 & _);
    rewrite ?E1; try assumption.
  rewrite H1, H2, H3, H4, H6, E1, Es, Er, En.
  rewrite (edit_map_insert data (users (store w)) k u Hnd Hk (eq_sym Hid)).
  repeat split.
Qed.

Lemma edit_flow_witness :
  let w := with_users [mk_user 1 "Ann Lee" "a@x.com" "Ops";
                       mk_user 2 "Bo Chen" "b@x.com" "Ops"] initial_world in
  users (store (Submit (Fulfilled (mk_user 2 "Bo Chan" "b@x.com" "Ops"))
                  (Typing [type_in UserForm.input_name "Bo Chan"]
                     (BeginEdit (mk_user 2 "Bo Chen" "b@x.com" "Ops") w))))
  = [mk_user 1 "Ann Lee" "a@x.com" "Ops"; mk_user 2 "Bo Chan" "b@x.com" "Ops"].
Proof.
  intros w.
  assert (Hnd : NoDup (id <$> users (store w))).
  { apply (bool_decide_unpack _). vm_compute. exact I. }
  exact (proj1 (proj2 (proj2 (proj2 (proj2
           (edit_flow w 1%nat (mk_user 2 "Bo Chen" "b@x.com" "Ops")
              (mk_user 2 "Bo Chan" "b@x.com" "Ops") "Bo Chan"
              eq_refl eq_refl Hnd
              ltac:(discriminate) ltac:(discriminate) ltac:(discriminate)
              eq_refl)))))).
Defined.

(** Cancel undoes the opening of the form: from a page with the form
    closed and nothing selected, opening the form for an edit or for a
    creation, typing anything and cancelling gives the record store
    back as it was; no request is sent and nothing is notified. *)
Theorem cancel_restores_store (w : World) (u : UserRecord) (ks : list keystroke) :
  showForm (store w) = false ->
  selectedUser (store w) = None ->
  (store (Cancel (Typing ks (BeginEdit u w))) = store w
   /\ requests (Cancel (Typing ks (BeginEdit u w))) = requests w
   /\ notifications (Cancel (Typing ks (BeginEdit u w))) = notifications w)
  /\ (store (Cancel (Typing ks (BeginAdd w))) = store w
      /\ requests (Cancel (Typing ks (BeginAdd w))) = requests w
      /\ notifications (Cancel (Typing ks (BeginAdd w))) = notifications w).
Proof.
  intros Hclosed Hsel.
  assert (HC : forall w1,
             store (Cancel w1)
             = {| users := users (store w1); error := error (store w1);
                  showForm := false; selectedUser := None;
                  currentPage := currentPage (store w1) |}
             /\ requests (Cancel w1) = requests w1
             /\ notifications (Cancel w1) = notifications w1)
    by (intros w1; repeat split).
  assert (Hw : store w
               = {| users := users (store w); error := error (store w);
                    showForm := false; selectedUser := None;
                    currentPage := currentPage (store w) |}).
  { destruct w as [[us er sf sel cp] f ns rs]. simpl in *. now subst. }
  split.
  - destruct (HC (Typing ks (BeginEdit u w))) as (-> & -> & ->).
    destruct (Typing_store ks (BeginEdit u w)) as (-> & -> & -> & _).
    split; [symmetry; exact Hw | split; reflexivity].
  - destruct (HC (Typing ks (BeginAdd w))) as (-> & -> & ->).
    destruct (Typing_store ks (BeginAdd w)) as (-> & -> & -> & _).
    unfold BeginAdd. rewrite Hclosed.
    split; [symmetry; exact Hw | split; reflexivity].
Qed.

Lemma cancel_restores_store_witness :
  let w := with_users [mk_user 1 "Ann Lee" "a@x.com" "Ops"] initial_world in
  store (Cancel (Typing [type_department "Eng"]
                   (BeginEdit (mk_user 1 "Ann Lee" "a@x.com" "Ops") w)))
  = store w.
Proof.
  intros w.
  destruct (cancel_restores_store w (mk_user 1 "Ann Lee" "a@x.com" "Ops")
              [type_department "Eng"] eq_refl eq_refl) as [(H & _) _].
  exact H.
Defined.

(** ** Further properties of the pagination *)

Section PaginationMore.

Implicit Types (r : ListState) (w : World) (us : list UserRecord).

Lemma page_take_drop (p : Z) us :
  1 <= p -> page p us = take 13 (drop (Z.to_nat ((p - 1) * 13)) us).
Proof. intros Hp. unfold page. now rewrite currentUsers_take_drop. Qed.

(** The first [n] pages, one after the other, are the first [13 * n]
    records. *)
Lemma first_pages (n : nat) us :
  concat ((fun p => page p us) <$> seqZ 1 (Z.of_nat n)) = take (13 * n) us.
Proof.
  induction n as [|n IH]; [reflexivity|].
  rewrite seqZ_S, fmap_app, concat_app, IH. simpl.
  rewrite app_nil_r, page_take_drop by lia.
  replace (Z.to_nat ((1 + Z.of_nat n - 1) * 13)) with (13 * n)%nat by lia.
  rewrite take_take_drop. f_equal. lia.
Qed.

Lemma others_length (i : number) us :
  NoDup (id <$> us) -> i ∈ id <$> us ->
  S (length (others i us)) = length us.
Proof.
  unfold others. induction us as [|u us IH]; intros Hnd Hin.
  - inversion Hin.
  - rewrite fmap_cons in Hnd, Hin. apply NoDup_cons in Hnd as [Hnotin Hnd].
    rewrite filter_cons. destruct (decide (id u <> i)) as [Hne|Heq].
    + simpl. f_equal. apply IH; [exact Hnd|].
      apply elem_of_cons in Hin as [Hin|Hin]; [congruence | exact Hin].
    + assert (id u = i) as <- by (destruct (decide (id u = i)); tauto).
      simpl. f_equal. fold (others (id u) us). f_equal. apply others_all.
      intros v Hv Heq'. apply Hnotin. rewrite <- Heq'.
      apply list_elem_of_fmap. now exists v.
Qed.

End PaginationMore.

(** On an empty collection Next is enabled on every page from 1 on: each
    click moves one page further, and every such page shows nothing. *)
Theorem next_enabled_on_empty_collection (w : World) :
  users (store w) = [] ->
  1 <= currentPage (store w) ->
  UserList.next_disabled (store w) = false
  /\ UserList.currentUsers (store w) = []
  /\ currentPage (store (Next w)) = currentPage (store w) + 1
  /\ users (store (Next w)) = [].
Proof.
  intros Hemp Hp.
  assert (Hd : UserList.next_disabled (store w) = false).
  { unfold UserList.next_disabled. rewrite Hemp. apply Z.eqb_neq.
    change (Math_ceil (div (Z.of_nat (length (@nil UserRecord))) usersPerPage)) with 0.
    lia. }
  split; [exact Hd|]. split.
  { rewrite currentUsers_take_drop by exact Hp. rewrite Hemp.
    now rewrite drop_nil, take_nil. }
  unfold Next, UserList.click_Next. rewrite Hd. split; [reflexivity | exact Hemp].
Qed.

Lemma next_enabled_on_empty_collection_witness :
  currentPage (store (Next (Next initial_world))) = 3
  /\ UserList.currentUsers (store (Next initial_world)) = [].
Proof.
  destruct (next_enabled_on_empty_collection initial_world eq_refl)
    as (_ & _ & H1 & Hu1); [vm_compute; discriminate|].
  destruct (next_enabled_on_empty_collection (Next initial_world) Hu1)
    as (_ & Hc & H2 & _); [rewrite H1; vm_compute; discriminate|].
  split; [rewrite H2, H1; reflexivity | exact Hc].
Defined.

(** Whatever the page pointer is (in the range or not, positive or not),
    the visible slice has at most 13 records and is a run of consecutive
    records of the collection. *)
Theorem visible_slice_any_page (r : ListState) :
  (length (UserList.currentUsers r) <= 13)%nat
  /\ exists before after : list UserRecord,
       users r = before ++ UserList.currentUsers r ++ after.
Proof.
  unfold UserList.currentUsers, UserList.indexOfFirstUser, UserList.indexOfLastUser,
    usersPerPage, slice.
  set (len := Z.of_nat (length (users r))).
  set (k := if currentPage r * 13 - 13 <? 0
            then Z.max (len + (currentPage r * 13 - 13)) 0
            else Z.min (currentPage r * 13 - 13) len).
  set (final := if currentPage r * 13 <? 0
                then Z.max (len + currentPage r * 13) 0
                else Z.min (currentPage r * 13) len).
  split.
  - rewrite length_take, length_drop. unfold k, final.
    destruct (Z.ltb_spec (currentPage r * 13 - 13) 0),
             (Z.ltb_spec (currentPage r * 13) 0); lia.
  - exists (take (Z.to_nat k) (users r)),
           (drop (Z.to_nat (final - k)) (drop (Z.to_nat k) (users r))).
    now rewrite !take_drop.
Qed.

(** The pages 1 to [Math.ceil(total / 13)], one after the other, are the
    collection: every record is on exactly one page, in order. *)
Theorem pages_cover_collection (us : list UserRecord) :
  concat ((fun p => page p us)
            <$> seqZ 1 (Math_ceil (div (Z.of_nat (length us)) usersPerPage)))
  = us.
Proof.
  pose proof (Math_ceil_div_pages (Z.of_nat (length us))) as H.
  unfold usersPerPage in *.
  set (L := Math_ceil (div (Z.of_nat (length us)) 13)) in *.
  replace L with (Z.of_nat (Z.to_nat L)) by lia.
  rewrite first_pages. apply take_ge. lia.
Qed.

(** When the last page holds one record only and one record is deleted
    (any one, the ids being distinct), the page pointer stays where it
    was: the page shows no record and its Next button is enabled. *)
Theorem delete_can_empty_the_page (w : World) (i : number) (ack : unit) :
  NoDup (id <$> users (store w)) ->
  i ∈ id <$> users (store w) ->
  1 <= currentPage (store w) ->
  total (store w) = 13 * (currentPage (store w) - 1) + 1 ->
  UserList.currentUsers (store w) <> []
  /\ currentPage (store (Delete i (Fulfilled ack) w)) = currentPage (store w)
  /\ UserList.currentUsers (store (Delete i (Fulfilled ack) w)) = []
  /\ UserList.next_disabled (store (Delete i (Fulfilled ack) w)) = false.
Proof.
  intros Hnd Hin Hp Htot.
  pose proof (others_length i _ Hnd Hin) as Hlen.
  assert (Hu : users (store (Delete i (Fulfilled ack) w)) = others i (users (store w))).
  { now rewrite Delete_fulfilled_users, filter_strict_ne_others. }
  assert (Hc : currentPage (store (Delete i (Fulfilled ack) w)) = currentPage (store w))
    by reflexivity.
  assert (Ht : total (store (Delete i (Fulfilled ack) w))
               = 13 * (currentPage (store w) - 1)).
  { unfold total in *. rewrite Hu. lia. }
  split.
  { pose proof (currentUsers_length (store w) Hp) as H.
    intros E. rewrite E in H. simpl in H. lia. }
  split; [exact Hc|]. split.
  - pose proof (currentUsers_length (store (Delete i (Fulfilled ack) w))) as H.
    rewrite Hc, Ht in H. specialize (H Hp).
    destruct (UserList.currentUsers (store (Delete i (Fulfilled ack) w)));
      [reflexivity | simpl in H; lia].
  - unfold UserList.next_disabled. rewrite Hc. apply Z.eqb_neq.
    pose proof (Math_ceil_div_pages (total (store (Delete i (Fulfilled ack) w)))) as H.
    fold (total (store (Delete i (Fulfilled ack) w))).
    revert H. generalize (Math_ceil (div (total (store (Delete i (Fulfilled ack) w)))
                                      usersPerPage)).
    intros L H. unfold usersPerPage in H. lia.
Qed.

Lemma delete_can_empty_the_page_witness :
  let w := at_page 2 (with_users fourteen initial_world) in
  UserList.currentUsers (store (Delete (Int 3) (Fulfilled tt) w)) = []
  /\ UserList.next_disabled (store (Delete (Int 3) (Fulfilled tt) w)) = false.
Proof.
  intros w.
  destruct (delete_can_empty_the_page w (Int 3) tt) as (_ & _ & H1 & H2).
  - apply (bool_decide_unpack _). vm_compute. exact I.
  - apply (bool_decide_unpack _). vm_compute. exact I.
  - vm_compute. discriminate.
  - reflexivity.
  - split; [exact H1 | exact H2].
Defined.

(** ** What every state of the page satisfies *)

Section Invariants.

Implicit Types (w : World).

(** The record store after a Submit: untouched, or (request fulfilled)
    the collection of [handleAddOrEditUser] with the form closed and
    nothing selected. *)
Lemma Submit_store_cases w resp :
  store (Submit resp w) = store w
  \/ exists data,
       resp = Fulfilled data
       /\ store (Submit resp w)
          = {| users := users (store (AddOrEdit data w)); error := error (store w);
               showForm := false; selectedUser := None;
               currentPage := currentPage (store w) |}.
Proof.
  unfold Submit, UserForm.handleSubmit.
  destruct (not_str (fd_name (formData (form w)))
            || not_str (fd_email (formData (form w)))
            || not_str (company_name (fd_company (formData (form w)))));
    [now left|].
  destruct resp as [data|message]; [right | now left].
  exists data. split; [reflexivity|].
  unfold AddOrEdit, UserList.handleAddOrEditUser.
  destruct (selectedUser (store w)); reflexivity.
Qed.

Lemma Prev_page w :
  1 <= currentPage (store w) -> 1 <= currentPage (store (Prev w)).
Proof.
  intros Hp. unfold Prev, UserList.click_Prev, UserList.prev_disabled.
  destruct (Z.eqb_spec (currentPage (store w)) 1); [exact Hp | simpl; lia].
Qed.

Lemma Next_page w :
  1 <= currentPage (store w) -> 1 <= currentPage (store (Next w)).
Proof.
  intros Hp. unfold Next, UserList.click_Next.
  destruct (UserList.next_disabled (store w)); [exact Hp | simpl; lia].
Qed.

Lemma reachable_page_positive w0 w :
  reachable_from w0 w -> 1 <= currentPage (store w0) -> 1 <= currentPage (store w).
Proof.
  intros Hreach H0.
  induction Hreach as [ | w resp _ IH | w _ IH | w u _ IH _ _ | w u sync _ IH _ _
                      | w u resp _ IH _ | w _ IH | w _ IH | w target value _ IH _
                      | w value _ IH _ | w resp _ IH _ | w _ IH _ ].
  - exact H0.
  - destruct resp; exact IH.
  - unfold BeginAdd. destruct (showForm (store w)); exact IH.
  - exact IH.
  - destruct sync; exact IH.
  - destruct resp; exact IH.
  - now apply Prev_page.
  - now apply Next_page.
  - destruct target; exact IH.
  - exact IH.
  - destruct (Submit_store_cases w resp) as [->|(data & _ & ->)]; exact IH.
  - exact IH.
Qed.

End Invariants.

(** The page pointer never goes below 1, whatever is done on the page;
    so in every state of the page the visible slice is the 13 records
    from offset [(currentPage - 1) * 13] on. *)
Theorem page_pointer_stays_positive (w : World) :
  reachable w ->
  1 <= currentPage (store w)
  /\ UserList.currentUsers (store w)
     = take 13 (drop (Z.to_nat ((currentPage (store w) - 1) * 13)) (users (store w))).
Proof.
  intros Hreach.
  assert (Hp : 1 <= currentPage (store w)).
  { apply (reachable_page_positive initial_world w Hreach). simpl. lia. }
  split; [exact Hp | now apply currentUsers_take_drop].
Qed.

Lemma page_pointer_stays_positive_witness :
  1 <= currentPage (store (Prev (Next (Load (Fulfilled fourteen) initial_world)))).
Proof.
  apply (page_pointer_stays_positive
           (Prev (Next (Load (Fulfilled fourteen) initial_world)))).
  apply reach_Prev, reach_Next, reach_Load, reach_start.
Defined.

(** A record is selected only while the form is shown: in every state
    of the page with the form closed, nothing is selected. *)
Theorem selection_only_while_form_shown (w : World) :
  reachable w ->
  showForm (store w) = false ->
  selectedUser (store w) = None.
Proof.
  intros Hreach. unfold reachable in Hreach.
  induction Hreach as [ | w resp _ IH | w _ IH | w u _ IH _ _ | w u sync _ IH _ _
                      | w u resp _ IH _ | w _ IH | w _ IH | w target value _ IH _
                      | w value _ IH _ | w resp _ IH _ | w _ IH _ ].
  - reflexivity.
  - destruct resp; exact IH.
  - unfold BeginAdd. destruct (showForm (store w)); discriminate.
  - discriminate.
  - destruct sync; discriminate.
  - destruct resp; exact IH.
  - unfold Prev, UserList.click_Prev.
    destruct (UserList.prev_disabled (store w)); exact IH.
  - unfold Next, UserList.click_Next.
    destruct (UserList.next_disabled (store w)); exact IH.
  - destruct target; exact IH.
  - exact IH.
  - destruct (Submit_store_cases w resp) as [->|(data & _ & ->)];
      [exact IH | reflexivity].
  - reflexivity.
Qed.

Lemma selection_only_while_form_shown_witness :
  selectedUser
    (store (Submit (Fulfilled (mk_user 1 "Ann Lee" "a@x.com" "Ops"))
              (BeginEdit (mk_user 1 "Ann Lee" "a@x.com" "Ops")
                 (Load (Fulfilled [mk_user 1 "Ann Lee" "a@x.com" "Ops"]) initial_world))))
  = None.
Proof.
  apply selection_only_while_form_shown; [|reflexivity].
  apply reach_Submit; [|reflexivity].
  apply reach_BeginEdit; [apply reach_Load, reach_start | reflexivity |].
  apply list_elem_of_here.
Defined.

(** A stored error message is never cleared: once a Load or a Delete has
    failed, every later state of the page still holds an error message,
    also after operations that succeed. *)
Theorem stored_error_is_never_cleared (w0 w : World) :
  reachable_from w0 w ->
  error (store w0) <> None ->
  error (store w) <> None.
Proof.
  intros Hreach H0.
  induction Hreach as [ | w resp _ IH | w _ IH | w u _ IH _ _ | w u sync _ IH _ _
                      | w u resp _ IH _ | w _ IH | w _ IH | w target value _ IH _
                      | w value _ IH _ | w resp _ IH _ | w _ IH _ ].
  - exact H0.
  - destruct resp; [exact IH | discriminate].
  - unfold BeginAdd. destruct (showForm (store w)); exact IH.
  - exact IH.
  - destruct sync; exact IH.
  - destruct resp; [exact IH | discriminate].
  - unfold Prev, UserList.click_Prev.
    destruct (UserList.prev_disabled (store w)); exact IH.
  - unfold Next, UserList.click_Next.
    destruct (UserList.next_disabled (store w)); exact IH.
  - destruct target; exact IH.
  - exact IH.
  - destruct (Submit_store_cases w resp) as [->|(data & _ & ->)]; exact IH.
  - exact IH.
Qed.

Lemma stored_error_is_never_cleared_witness :
  error (store (Load (Fulfilled fourteen) (Load (Rejected "Network Error") initial_world)))
  <> None.
Proof.
  apply (stored_error_is_never_cleared (Load (Rejected "Network Error") initial_world)).
  - apply reach_Load, reach_start.
  - discriminate.
Defined.

(** ** Further properties of the table *)

Section RowMore.

Implicit Types (a b s : string) (sep : ascii).

Lemma before_first_app sep a s :
  occurs sep a = false -> before_first sep (a +:+ String sep s) = a.
Proof.
  induction a as [|c a IH]; simpl; [now rewrite Ascii.eqb_refl|].
  intros H. apply orb_false_elim in H as [Hc Ha].
  rewrite Hc. f_equal. now apply IH.
Qed.

Lemma after_first_app sep a s :
  occurs sep a = false -> after_first sep (a +:+ String sep s) = s.
Proof.
  induction a as [|c a IH]; simpl; [now rewrite Ascii.eqb_refl|].
  intros H. apply orb_false_elim in H as [Hc Ha].
  rewrite Hc. now apply IH.
Qed.

Lemma before_first_none sep a : occurs sep a = false -> before_first sep a = a.
Proof.
  induction a as [|c a IH]; simpl; [reflexivity|].
  intros H. apply orb_false_elim in H as [Hc Ha].
  rewrite Hc. f_equal. now apply IH.
Qed.

Lemma after_first_none sep a : occurs sep a = false -> after_first sep a = "".
Proof.
  induction a as [|c a IH]; simpl; [reflexivity|].
  intros H. apply orb_false_elim in H as [Hc Ha].
  rewrite Hc. now apply IH.
Qed.

Lemma row_names (u : UserRecord) :
  User.firstName u = before_first " " (name u)
  /\ User.lastName u = before_first " " (after_first " " (name u)).
Proof.
  unfold User.firstName, User.lastName, User.nameParts.
  rewrite or_str_empty. split; [apply split_first_piece | apply split_second_piece].
Qed.


End RowMore.

(** A name of the form "First Last" is shown as it is: first name
    "First", last name "Last".  A name with no space is the first name
    and the last name is empty.  Of a name with a second space, what
    follows the second space is not shown. *)
Theorem row_names_by_shape (u : UserRecord) (a b c : string) :
  occurs " " a = false ->
  occurs " " b = false ->
  (name u = a -> User.firstName u = a /\ User.lastName u = "")
  /\ (name u = a +:+ " " +:+ b -> User.firstName u = a /\ User.lastName u = b)
  /\ (name u = a +:+ " " +:+ b +:+ " " +:+ c ->
      User.firstName u = a /\ User.lastName u = b).
Proof.
  intros Ha Hb. destruct (row_names u) as [-> ->].
  split; [|split]; intros ->.
  - now rewrite after_first_none, before_first_none.
  - change (a +:+ " " +:+ b) with (a +:+ String " " b).
    now rewrite after_first_app, before_first_app, before_first_none.
  - change (a +:+ " " +:+ b +:+ " " +:+ c) with (a +:+ String " " (b +:+ String " " c)).
    now rewrite after_first_app, !before_first_app.
Qed.

Lemma row_names_by_shape_witness :
  User.firstName (mk_user 1 "Ann Lee" "a@x.com" "Ops") = "Ann"
  /\ User.lastName (mk_user 1 "Ann Lee" "a@x.com" "Ops") = "Lee".
Proof.
  destruct (row_names_by_shape (mk_user 1 "Ann Lee" "a@x.com" "Ops") "Ann" "Lee" ""
              eq_refl eq_refl) as (_ & H & _).
  apply H. reflexivity.
Defined.



(** A click on Delete in the row of a record, when the ids are distinct
    and the request succeeds: that record leaves the collection, every
    other record stays, and the collection has one record less. *)
Theorem row_delete_removes_that_record (w : World) (u : UserRecord) (ack : unit) :
  NoDup (id <$> users (store w)) ->
  u ∈ users (store w) ->
  let w' := ClickDelete u (Fulfilled ack) w in
  (u ∉ users (store w'))
  /\ (forall v, v ∈ users (store w) -> v <> u -> v ∈ users (store w'))
  /\ S (length (users (store w'))) = length (users (store w))
  /\ requests w' = requests w ++ [axios_delete_user (id u)].
Proof.
  intros Hnd Hu w'.
  assert (E : users (store w') = others (id u) (users (store w))).
  { unfold w', ClickDelete, User.handleDelete.
    change (users (store (Delete (id u) (Fulfilled ack) w))
            = others (id u) (users (store w))).
    now rewrite Delete_fulfilled_users, filter_strict_ne_others. }
  rewrite E. split; [|split; [|split]].
  - intros Hin. apply list_elem_of_filter in Hin as [Hne _]. now apply Hne.
  - intros v Hv Hvu. apply list_elem_of_filter. split; [|exact Hv].
    intros Heq. apply Hvu.
    apply list_elem_of_lookup in Hv as [kv Hkv].
    apply list_elem_of_lookup in Hu as [ku Hku].
    assert (kv = ku).
    { apply (NoDup_lookup (id <$> users (store w)) kv ku (id u)); [exact Hnd| |].
      - now rewrite list_lookup_fmap, Hkv, <- Heq.
      - now rewrite list_lookup_fmap, Hku. }
    subst kv. congruence.
  - apply others_length; [exact Hnd|].
    apply list_elem_of_fmap. now exists u.
  - reflexivity.
Qed.

Lemma row_delete_removes_that_record_witness :
  let w := with_users [mk_user 1 "Ann Lee" "a@x.com" "Ops";
                       mk_user 2 "Bo Chen" "b@x.com" "Ops"] initial_world in
  mk_user 2 "Bo Chen" "b@x.com" "Ops"
  ∉ users (store (ClickDelete (mk_user 2 "Bo Chen" "b@x.com" "Ops") (Fulfilled tt) w)).
Proof.
  intros w.
  destruct (row_delete_removes_that_record w (mk_user 2 "Bo Chen" "b@x.com" "Ops") tt)
    as (H & _).
  - apply (bool_decide_unpack _). vm_compute. exact I.
  - apply list_elem_of_further, list_elem_of_here.
  - exact H.
Defined.
